(** * useForm: the form-state hook, embedded and verified

    The hook is src/index.ts; src/unnamed/part_000 holds a second copy
    of it that differs in its type annotations and in the two name
    patterns ([SourceFile] selects the copy).

    The hook keeps two keyed records, the field store and the error
    store, updates the first through [fieldsReducer], and recomputes the
    second by a validation pass ([validate]) that dispatches one
    [UPDATE_ERROR] per field to [errorsReducer].  [formInvalid] is
    derived from both stores.

    JavaScript strings are sequences of UTF-16 code units.  A [string]
    here is such a sequence with every code unit in U+0000..U+00FF, one
    [ascii] per code unit; every character class the hook tests (white
    space for [trim], [a-z] and the punctuation of the name patterns)
    is decided inside that range. *)

From Stdlib Require Import String Ascii List Bool Arith NArith Lia.
Import ListNotations.
Open Scope string_scope.

(** ** JavaScript values *)

Module Js.

(** The outcome of evaluating code that may throw.  The only exception
    the hook can raise is the [TypeError] of reading a property of
    [undefined]. *)
Inductive Result (A : Type) : Type :=
| Ok (a : A)
| TypeError.
Arguments Ok {A} a.
Arguments TypeError {A}.

Definition bind {A B} (m : Result A) (k : A -> Result B) : Result B :=
  match m with
  | Ok a => k a
  | TypeError => TypeError
  end.

(** [o.p] where the next step dereferences the result: [undefined]
    throws. *)
Definition prop {A} (o : option A) : Result A :=
  match o with
  | Some a => Ok a
  | None => TypeError
  end.

(** [!!s] for a string. *)
Definition truthy (s : string) : bool := negb (s =? "").

(** [!!b] for [boolean | undefined]. *)
Definition truthy_flag (b : option bool) : bool :=
  match b with
  | Some true => true
  | _ => false
  end.

(** [!!s] for [string | undefined]. *)
Definition truthy_opt (s : option string) : bool :=
  match s with
  | Some s => truthy s
  | None => false
  end.

(** [a || d] for [a : string | undefined] and a string [d]. *)
Definition or_else (a : option string) (d : string) : string :=
  match a with
  | Some s => if truthy s then s else d
  | None => d
  end.

(** [a === b] for [string | undefined]. *)
Definition strict_eq (a b : option string) : bool :=
  match a, b with
  | Some x, Some y => x =? y
  | None, None => true
  | _, _ => false
  end.

(** WhiteSpace and LineTerminator code units below U+0100: TAB, LF, VT,
    FF, CR, SP and NBSP. *)
Definition is_white (c : ascii) : bool :=
  let n := nat_of_ascii c in
  (((9 <=? n) && (n <=? 13)) || (n =? 32) || (n =? 160))%nat.

(** [String.prototype.trimStart]. *)
Fixpoint trimStart (s : string) : string :=
  match s with
  | "" => ""
  | String c r => if is_white c then trimStart r else s
  end.

(** [String.prototype.trimEnd]. *)
Fixpoint trimEnd (s : string) : string :=
  match s with
  | "" => ""
  | String c r =>
      match trimEnd r with
      | "" => if is_white c then "" else String c ""
      | r' => String c r'
      end
  end.

(** [String.prototype.trim]. *)
Definition trim (s : string) : string := trimEnd (trimStart s).

Fixpoint all_white (s : string) : bool :=
  match s with
  | "" => true
  | String c r => is_white c && all_white r
  end.

Definition head_white (s : string) : bool :=
  match s with
  | "" => false
  | String c _ => is_white c
  end.

Fixpoint last_white (s : string) : bool :=
  match s with
  | "" => false
  | String c "" => is_white c
  | String _ r => last_white r
  end.

End Js.

Import Js.

Declare Scope result_scope.
Delimit Scope result_scope with result.
Notation "x <- m ;; k" := (bind m (fun x => k))
  (at level 61, m at next level, right associativity) : result_scope.
Open Scope result_scope.

(** ** Ordinary objects used as keyed records *)

Module Obj.

(** An object is the list of its own properties in the order
    [Object.keys] enumerates them: array-index keys first, in ascending
    numeric order, then the other keys in the order they were created.
    Every own property is a plain data property; the one inherited
    property the hook can meet that is not, the accessor "__proto__" of
    [Object.prototype], is modelled in [assign]. *)
Definition t (A : Type) : Type := list (string * A).

Definition empty {A} : t A := [].

(** [o[k]] *)
Fixpoint get {A} (o : t A) (k : string) : option A :=
  match o with
  | [] => None
  | (k', v) :: r => if k' =? k then Some v else get r k
  end.

(** [Object.keys(o)] *)
Definition keys {A} (o : t A) : list string := map fst o.

Definition mem {A} (o : t A) (k : string) : bool :=
  match get o k with
  | Some _ => true
  | None => false
  end.

Definition digit_of (c : ascii) : option N :=
  let n := N_of_ascii c in
  if ((48 <=? n) && (n <=? 57))%N then Some (n - 48)%N else None.

Fixpoint decimal (s : string) (acc : N) : option N :=
  match s with
  | "" => Some acc
  | String c r =>
      match digit_of c with
      | Some d => decimal r (10 * acc + d)%N
      | None => None
      end
  end.

(** A key is an array index when it is the canonical decimal form of an
    integer in 0 .. 2^32 - 2. *)
Definition array_index (k : string) : option N :=
  match k with
  | "" => None
  | String c r =>
      if (c =? "0")%char && negb (r =? "") then None
      else match decimal k 0 with
           | Some n => if (n <? 4294967295)%N then Some n else None
           | None => None
           end
  end.

(** Overwriting an existing property keeps its position. *)
Fixpoint replace {A} (k : string) (v : A) (o : t A) : t A :=
  match o with
  | [] => []
  | (k', v') :: r =>
      if k' =? k then (k, v) :: r else (k', v') :: replace k v r
  end.

(** A new array-index key goes after the smaller array-index keys. *)
Fixpoint insert_index {A} (n : N) (k : string) (v : A) (o : t A) : t A :=
  match o with
  | [] => [(k, v)]
  | (k', v') :: r =>
      match array_index k' with
      | Some m =>
          if (m <? n)%N then (k', v') :: insert_index n k v r
          else (k, v) :: o
      | None => (k, v) :: o
      end
  end.

(** [{ ...o, [k]: v }]: the spread and the computed key both define own
    properties. *)
Definition set {A} (k : string) (v : A) (o : t A) : t A :=
  if mem o k then replace k v o
  else match array_index k with
       | Some n => insert_index n k v o
       | None => (o ++ [(k, v)])%list
       end.

(** The assignment [o[k] = v] of a string [v].  When [o] has no own
    property "__proto__" the assignment to that key runs the setter
    inherited from [Object.prototype], which ignores a value that is
    not an object: no property is created.  Every other key is
    written as by [set]. *)
Definition assign {A} (k : string) (v : A) (o : t A) : t A :=
  if negb (mem o k) && (k =? "__proto__") then o else set k v o.

Definition named (k : string) : bool :=
  match array_index k with
  | Some _ => false
  | None => true
  end.

(** The enumeration order on a list of keys: array indices first, in
    ascending order from [lo]. *)
Fixpoint ordered_from (lo : N) (ks : list string) : bool :=
  match ks with
  | [] => true
  | k :: r =>
      match array_index k with
      | Some n => (lo <=? n)%N && ordered_from n r
      | None => forallb named r
      end
  end.

(** The lists that are the enumeration of some object. *)
Definition canonical {A} (o : t A) : Prop :=
  NoDup (keys o) /\ ordered_from 0 (keys o) = true.

End Obj.

(** ** Regular expressions *)

Module Regex.

(** The fragment of the pattern language the hook's two literals use:
    character classes, concatenation and the quantifiers [+] and [*];
    [Never] and [Alt] close the fragment under derivatives. *)
Inductive t : Type :=
| Never
| Eps
| Class (p : ascii -> bool)
| Seq (r1 r2 : t)
| Alt (r1 r2 : t)
| Star (r : t).

(** [r+] *)
Definition Plus (r : t) : t := Seq r (Star r).

Fixpoint nullable (r : t) : bool :=
  match r with
  | Never => false
  | Eps => true
  | Class _ => false
  | Seq r1 r2 => nullable r1 && nullable r2
  | Alt r1 r2 => nullable r1 || nullable r2
  | Star _ => true
  end.

Fixpoint deriv (c : ascii) (r : t) : t :=
  match r with
  | Never => Never
  | Eps => Never
  | Class p => if p c then Eps else Never
  | Seq r1 r2 =>
      if nullable r1 then Alt (Seq (deriv c r1) r2) (deriv c r2)
      else Seq (deriv c r1) r2
  | Alt r1 r2 => Alt (deriv c r1) (deriv c r2)
  | Star r1 => Seq (deriv c r1) (Star r1)
  end.

(** [/^r$/] against [s]: without the [m] flag the two assertions pin
    the match to the whole input. *)
Fixpoint matches (r : t) (s : string) : bool :=
  match s with
  | "" => nullable r
  | String c s' => matches (deriv c r) s'
  end.

(** [[a-z]] under the [i] flag. *)
Definition a_z_i (c : ascii) : bool :=
  let n := nat_of_ascii c in
  (((97 <=? n) && (n <=? 122)) || ((65 <=? n) && (n <=? 90)))%nat.

(** [[a-z .'-]] under the [i] flag. *)
Definition first_name_tail (c : ascii) : bool :=
  (a_z_i c || (c =? " ") || (c =? ".") || (c =? "'") || (c =? "-"))%char.

(** [[a-z ,.'-]] under the [i] flag. *)
Definition last_name_tail (c : ascii) : bool :=
  (a_z_i c || (c =? " ") || (c =? ",") || (c =? ".") || (c =? "'")
   || (c =? "-"))%char.

(** The strings a pattern denotes, which [matches] decides. *)
Inductive lang : t -> string -> Prop :=
| lang_eps : lang Eps ""
| lang_class p c : p c = true -> lang (Class p) (String c "")
| lang_seq r1 r2 s1 s2 :
    lang r1 s1 -> lang r2 s2 -> lang (Seq r1 r2) (s1 ++ s2)
| lang_alt_l r1 r2 s : lang r1 s -> lang (Alt r1 r2) s
| lang_alt_r r1 r2 s : lang r2 s -> lang (Alt r1 r2) s
| lang_star_nil r : lang (Star r) ""
| lang_star_cons r s1 s2 :
    lang r s1 -> lang (Star r) s2 -> lang (Star r) (s1 ++ s2).

(** Every character of [s] is in the class [q]. *)
Fixpoint all_in (q : ascii -> bool) (s : string) : bool :=
  match s with
  | "" => true
  | String c r => q c && all_in q r
  end.

End Regex.

(** ** The validator package *)

(** The hook imports two predicates from the [validator] package, which
    is not part of this repository; its code is a parameter of the
    development.  [isLength s min max] stands for
    [validator.isLength(s, { min, max })]. *)
Class Validator : Type := {
  isEmail : string -> bool;
  isLength : string -> nat -> nat -> bool
}.

(** What the development uses of the package's documented behaviour:
    [isLength] compares the number of characters with both bounds (on
    strings without surrogate pairs that number is [length]), and the
    empty string is not an e-mail address. *)
Class ValidatorLaws (V : Validator) : Prop := {
  isLength_spec : forall s min max,
    isLength s min max
    = ((min <=? String.length s) && (String.length s <=? max))%nat;
  isEmail_empty : isEmail "" = false
}.

(** A stand-in for the package, used to run the hook on concrete forms:
    an address is two non-empty parts around its only [@]. *)
Fixpoint count_at (s : string) : nat :=
  match s with
  | "" => 0
  | String c r => ((if (c =? "@")%char then 1 else 0) + count_at r)%nat
  end.

Fixpoint plain_isEmail_from (local_seen : bool) (s : string) : bool :=
  match s with
  | "" => false
  | String c r =>
      if (c =? "@")%char
      then local_seen && negb (r =? "") && (count_at r =? 0)%nat
      else plain_isEmail_from true r
  end.

Definition plain_isEmail (s : string) : bool := plain_isEmail_from false s.

Definition plain_validator : Validator := {|
  isEmail := plain_isEmail;
  isLength := fun s min max =>
    ((min <=? String.length s) && (String.length s <=? max))%nat
|}.

(** ** Data model (src/index.ts, lines 11-50) *)

Inductive FormFieldOptions : Type :=
| none
| email
| password
| passwordConfirmation
| firstName
| lastName.

Record Validation : Type := {
  type : FormFieldOptions;
  customError : option string;
  optional : option bool
}.

(** A field object as it exists at run time: [fieldsReducer] can build
    one from a missing entry, so every attribute may be absent. *)
Record Field : Type := {
  blurred : option bool;
  value : option string;
  validation : option Validation
}.

Definition Fields : Type := Obj.t Field.
Definition Errors : Type := Obj.t string.

(** The declared type of [Fields]: [value] and [validation] are
    required. *)
Definition typed_field (f : Field) : bool :=
  match value f, validation f with
  | Some _, Some _ => true
  | _, _ => false
  end.

Definition typed (fs : Fields) : bool := forallb typed_field (map snd fs).

(** The reducers end in a [default] branch, which an action object from
    outside the declared union reaches; the last constructor of each
    action type is such an object, with its [type] tag. *)
Inductive FormAction : Type :=
| UPDATE_VALUE (field : string) (value : string)
| BLUR_INPUT (field : string)
| OtherFormAction (tag : string)
    (unrecognized : (tag =? "UPDATE_VALUE") || (tag =? "BLUR_INPUT") = false).

Inductive ErrorAction : Type :=
| UPDATE_ERROR (field : string) (error : string)
| OtherErrorAction (tag : string)
    (unrecognized : (tag =? "UPDATE_ERROR") = false).

(** [action.type] *)
Definition FormAction_type (a : FormAction) : string :=
  match a with
  | UPDATE_VALUE _ _ => "UPDATE_VALUE"
  | BLUR_INPUT _ => "BLUR_INPUT"
  | OtherFormAction tag _ => tag
  end.

Definition ErrorAction_type (a : ErrorAction) : string :=
  match a with
  | UPDATE_ERROR _ _ => "UPDATE_ERROR"
  | OtherErrorAction tag _ => tag
  end.

(** ** Reducers (src/index.ts, lines 52-94) *)

Definition errorsReducer (state : Errors) (action : ErrorAction) : Errors :=
  match action with
  | UPDATE_ERROR field error => Obj.set field error state
  | OtherErrorAction _ _ => state
  end.

(** [{ ...f }] for [f : Field | undefined]. *)
Definition spread (f : option Field) : Field :=
  match f with
  | Some f => f
  | None => {| blurred := None; value := None; validation := None |}
  end.

Definition fieldsReducer (state : Fields) (action : FormAction) : Fields :=
  match action with
  | UPDATE_VALUE field v =>
      let old := spread (Obj.get state field) in
      Obj.set field
        {| blurred := blurred old;
           value := Some (trim v);
           validation := validation old |}
        state
  | BLUR_INPUT field =>
      let old := spread (Obj.get state field) in
      Obj.set field
        {| blurred := Some true;
           value := value old;
           validation := validation old |}
        state
  | OtherFormAction _ _ => state
  end.

(** Attribute reads [state[k]?.a]. *)
Definition attr {A} (a : Field -> option A) (state : Fields) (k : string)
  : option A :=
  match Obj.get state k with
  | Some f => a f
  | None => None
  end.

(** ** The validation pass (src/index.ts, lines 112-226) *)

(** The repository holds the hook twice; the two files differ in the
    quantifier that closes the two name patterns. *)
Inductive SourceFile : Type :=
| index_ts
| part_000.

(** [/^[a-z]+[a-z .'-]+$/i] in src/index.ts, [/^[a-z]+[a-z .'-]*$/i] in
    src/unnamed/part_000. *)
Definition firstNamePattern (src : SourceFile) : Regex.t :=
  match src with
  | index_ts =>
      Regex.Seq (Regex.Plus (Regex.Class Regex.a_z_i))
                (Regex.Plus (Regex.Class Regex.first_name_tail))
  | part_000 =>
      Regex.Seq (Regex.Plus (Regex.Class Regex.a_z_i))
                (Regex.Star (Regex.Class Regex.first_name_tail))
  end.

(** [/^[a-z]+[a-z ,.'-]+$/i] in src/index.ts, [/^[a-z]+[a-z ,.'-]*$/i]
    in src/unnamed/part_000. *)
Definition lastNamePattern (src : SourceFile) : Regex.t :=
  match src with
  | index_ts =>
      Regex.Seq (Regex.Plus (Regex.Class Regex.a_z_i))
                (Regex.Plus (Regex.Class Regex.last_name_tail))
  | part_000 =>
      Regex.Seq (Regex.Plus (Regex.Class Regex.a_z_i))
                (Regex.Star (Regex.Class Regex.last_name_tail))
  end.

(** The double quote of the two pattern messages. *)
Definition dquote : string := String (ascii_of_nat 34) "".

Definition firstNamePatternError : string :=
  "Must start with an alpha character, and consist of alpha and "
  ++ dquote ++ " ' " ++ dquote ++ ", "
  ++ dquote ++ " . " ++ dquote ++ ", or "
  ++ dquote ++ " - " ++ dquote ++ " characters".

Definition lastNamePatternError : string :=
  "Must start with an alpha character, and consist of alpha and "
  ++ dquote ++ " ' " ++ dquote ++ ", "
  ++ dquote ++ " . " ++ dquote ++ ", "
  ++ dquote ++ " , " ++ dquote ++ ", or "
  ++ dquote ++ " - " ++ dquote ++ " characters".

Definition dispatchValid (fieldName : string) : ErrorAction :=
  UPDATE_ERROR fieldName "".

(** The body of the [forEach] callback: the one action it dispatches
    for [fieldName], or the exception it raises.  The package's two
    predicates reject a non-string argument with a [TypeError]. *)
Definition validate_field {V : Validator} (src : SourceFile)
    (formState : Fields) (fieldName : string) : Result ErrorAction :=
  field <- prop (Obj.get formState fieldName) ;;
  validation <- prop (validation field) ;;
  if truthy_flag (optional validation) then Ok (dispatchValid fieldName)
  else
    match type validation with
    | email =>
        v <- prop (value field) ;;
        if (String.length v =? 0)%nat then
          Ok (UPDATE_ERROR fieldName "Please provide an email")
        else if negb (isEmail v) then
          Ok (UPDATE_ERROR fieldName
                (or_else (customError validation)
                         "Please provide a valid email"))
        else Ok (dispatchValid fieldName)
    | password =>
        v <- prop (value field) ;;
        if isLength v 6 128 then Ok (dispatchValid fieldName)
        else
          Ok (UPDATE_ERROR fieldName
                (or_else (customError validation)
                   "Please provide a password of at least 6 characters"))
    | passwordConfirmation =>
        if negb (strict_eq (value field) (attr value formState "password"))
        then
          Ok (UPDATE_ERROR fieldName
                (or_else (customError validation) "Passwords do not match"))
        else Ok (dispatchValid fieldName)
    | firstName =>
        v <- prop (value field) ;;
        if (String.length v =? 0)%nat then
          Ok (UPDATE_ERROR fieldName
                (or_else (customError validation)
                         "Please provide a first name."))
        else if negb (Regex.matches (firstNamePattern src) v) then
          Ok (UPDATE_ERROR fieldName
                (or_else (customError validation) firstNamePatternError))
        else Ok (dispatchValid fieldName)
    | lastName =>
        v <- prop (value field) ;;
        if (String.length v =? 0)%nat then
          Ok (UPDATE_ERROR fieldName
                (or_else (customError validation)
                         "Please provide a last name."))
        else if negb (Regex.matches (lastNamePattern src) v) then
          Ok (UPDATE_ERROR fieldName
                (or_else (customError validation) lastNamePatternError))
        else Ok (dispatchValid fieldName)
    | none => Ok (dispatchValid fieldName)
    end.

(** [l.forEach(f)]: the actions dispatched, in order; an exception ends
    the loop. *)
Fixpoint forEach {A B} (f : A -> Result B) (l : list A) : Result (list B) :=
  match l with
  | [] => Ok []
  | x :: r =>
      b <- f x ;;
      bs <- forEach f r ;;
      Ok (b :: bs)
  end.

Definition validate {V : Validator} (src : SourceFile) (formState : Fields)
  : Result (list ErrorAction) :=
  forEach (validate_field src formState) (Obj.keys formState).

(** The error store once the dispatches of a pass have gone through
    [errorsReducer]. *)
Definition settle (actions : list ErrorAction) (errorState : Errors)
  : Errors :=
  fold_left errorsReducer actions errorState.

Definition validation_pass {V : Validator} (src : SourceFile)
    (formState : Fields) (errorState : Errors) : Result Errors :=
  actions <- validate src formState ;;
  Ok (settle actions errorState).

(** ** Derived state (src/index.ts, lines 230-235) *)

(** [l.find(p)] *)
Fixpoint find {A} (p : A -> Result bool) (l : list A) : Result (option A) :=
  match l with
  | [] => Ok None
  | x :: r =>
      b <- p x ;;
      if b then Ok (Some x) else find p r
  end.

Definition formInvalid (formState : Fields) (errorState : Errors)
  : Result bool :=
  found <- find
    (fun key =>
       if truthy_opt (Obj.get errorState key) then
         field <- prop (Obj.get formState key) ;;
         validation <- prop (validation field) ;;
         Ok (negb (truthy_flag (optional validation)))
       else Ok false)
    (Obj.keys errorState) ;;
  Ok (truthy_opt found).

(** ** The hook (src/index.ts, lines 96-110 and 228-248) *)

Record HookState : Type := {
  loading : bool;
  didAttemptSubmit : bool;
  formState : Fields;
  errorState : Errors;
  globalFormError : option string
}.

(** The state of the first render. *)
Definition useForm (initialState : Fields) : HookState := {|
  loading := false;
  didAttemptSubmit := false;
  formState := initialState;
  errorState :=
    fold_left (fun acc current => Obj.assign current "" acc)
              (Obj.keys initialState) Obj.empty;
  globalFormError := None
|}.

(** What can happen between two renders: a call of one of the returned
    setters or of [dispatchFormAction], or the effect that runs
    [validate] and commits its dispatches. *)
Inductive Event : Type :=
| setLoading (b : bool)
| setDidAttemptSubmit (b : bool)
| dispatchFormAction (a : FormAction)
| setGlobalFormError (e : option string)
| effect.

Definition step {V : Validator} (src : SourceFile) (st : HookState)
    (ev : Event) : Result HookState :=
  match ev with
  | setLoading b =>
      Ok {| loading := b;
            didAttemptSubmit := didAttemptSubmit st;
            formState := formState st;
            errorState := errorState st;
            globalFormError := globalFormError st |}
  | setDidAttemptSubmit b =>
      Ok {| loading := loading st;
            didAttemptSubmit := b;
            formState := formState st;
            errorState := errorState st;
            globalFormError := globalFormError st |}
  | dispatchFormAction a =>
      Ok {| loading := loading st;
            didAttemptSubmit := didAttemptSubmit st;
            formState := fieldsReducer (formState st) a;
            errorState := errorState st;
            globalFormError := globalFormError st |}
  | setGlobalFormError e =>
      Ok {| loading := loading st;
            didAttemptSubmit := didAttemptSubmit st;
            formState := formState st;
            errorState := errorState st;
            globalFormError := e |}
  | effect =>
      es <- validation_pass src (formState st) (errorState st) ;;
      Ok {| loading := loading st;
            didAttemptSubmit := didAttemptSubmit st;
            formState := formState st;
            errorState := es;
            globalFormError := globalFormError st |}
  end.

(** A sequence of events from a state.  An exception thrown inside the
    effect is not caught by the hook: the run ends there. *)
Fixpoint run {V : Validator} (src : SourceFile) (st : HookState)
    (evs : list Event) : Result HookState :=
  match evs with
  | [] => Ok st
  | ev :: r =>
      st' <- step src st ev ;;
      run src st' r
  end.

(** The form action of an event targets a key of [fs]. *)
Definition targets_known (fs : Fields) (ev : Event) : bool :=
  match ev with
  | dispatchFormAction (UPDATE_VALUE k _) => Obj.mem fs k
  | dispatchFormAction (BLUR_INPUT k) => Obj.mem fs k
  | _ => true
  end.

(** ** Vocabulary of the statements *)

(** The key a form action writes, if it writes one. *)
Definition FormAction_field (a : FormAction) : option string :=
  match a with
  | UPDATE_VALUE k _ => Some k
  | BLUR_INPUT k => Some k
  | OtherFormAction _ _ => None
  end.

(** [formState[k]?.validation?.optional] *)
Definition optional_flag (fs : Fields) (k : string) : option bool :=
  match attr validation fs k with
  | Some vl => optional vl
  | None => None
  end.

(** The predicate [formInvalid] hands to [find], on a key whose field
    has a [validation] attribute. *)
Definition invalid_required (fs : Fields) (es : Errors) (k : string) : bool :=
  truthy_opt (Obj.get es k) && negb (truthy_flag (optional_flag fs k)).

(** What every run keeps: (1) each key of the error store is a key of
    the field store; (2) each initial key other than "__proto__" has
    an error entry; (3) the [validation] attributes are those of the
    initial state. *)
Definition stores_agree (initialState : Fields) (st : HookState) : Prop :=
  (forall k, In k (Obj.keys (errorState st)) ->
             In k (Obj.keys (formState st)))
  /\ (forall k, k <> "__proto__" -> In k (Obj.keys initialState) ->
                In k (Obj.keys (errorState st)))
  /\ (forall k, attr validation (formState st) k
                = attr validation initialState k).

(** The key an error action writes, if it writes one. *)
Definition ErrorAction_field (a : ErrorAction) : option string :=
  match a with
  | UPDATE_ERROR k _ => Some k
  | OtherErrorAction _ _ => None
  end.

(** The fields on which the [forEach] callback reaches a dispatch: the
    [validation] attribute is there, and the [value] attribute too
    unless the branch taken never dereferences it. *)
Definition validatable (f : Field) : bool :=
  match validation f with
  | None => false
  | Some vl =>
      truthy_flag (optional vl)
      || match type vl with
         | none | passwordConfirmation => true
         | email | password | firstName | lastName =>
             match value f with
             | Some _ => true
             | None => false
             end
         end
  end.

(** ** Sample forms *)

Definition validation_of (ty : FormFieldOptions) (custom : option string)
    (opt : option bool) : Validation :=
  {| type := ty; customError := custom; optional := opt |}.

Definition field_of (v : string) (ty : FormFieldOptions)
    (custom : option string) (opt : option bool) : Field :=
  {| blurred := None;
     value := Some v;
     validation := Some (validation_of ty custom opt) |}.

Definition sign_up : Fields :=
  [ ("email", field_of "a@b.com" email None None);
    ("password", field_of "secret1" password None None);
    ("confirm", field_of "secret1" passwordConfirmation None None);
    ("firstName", field_of "J" firstName None None);
    ("lastName", field_of "D" lastName (Some "Surname, please") None);
    ("nickname", field_of "" email None (Some true)) ].

(** A form that sets its own messages, filled in wrongly. *)
Definition custom_errors : Fields :=
  [ ("email", field_of "not-an-email" email (Some "That's just wrong") None);
    ("password",
     field_of "abc" password (Some "Seriously, THAT'S your password?") None);
    ("confirm",
     field_of "secret2" passwordConfirmation (Some "Type it again") None) ].

(** A form with an own key "__proto__". *)
Definition proto_form : Fields :=
  [ ("__proto__", field_of "" none None None);
    ("email", field_of "a@b.com" email None None) ].

(** A form whose only field has the empty string as its key. *)
Definition anonymous_field : Fields :=
  [ ("", field_of "" email None None) ].

(** * Properties *)

(** ** Keyed records *)

Module ObjFacts.
Import Obj.

Section Lookup.
Context {A : Type}.
Implicit Types (o : t A) (k : string) (v : A).

Lemma mem_true_iff o k : mem o k = true <-> get o k <> None.
Proof.
  unfold mem. destruct (get o k); split; intro H; congruence.
Qed.

Lemma mem_keys o k : mem o k = true <-> In k (keys o).
Proof.
  unfold mem, keys. induction o as [|[k' v'] r IH]; simpl.
  - split; [discriminate | tauto].
  - destruct (String.eqb_spec k' k) as [->|Hne].
    + split; auto.
    + rewrite IH. split; [tauto | intros [?|?]; congruence || assumption].
Qed.

Lemma get_keys o k : get o k <> None <-> In k (keys o).
Proof. rewrite <- mem_true_iff. apply mem_keys. Qed.

Lemma get_In o k v : get o k = Some v -> In (k, v) o.
Proof.
  induction o as [|[k' v'] r IH]; simpl; [discriminate|].
  destruct (String.eqb_spec k' k) as [->|Hne].
  - intros [= ->]. now left.
  - intro H. right. now apply IH.
Qed.

Lemma get_app_l o o' k : get o k <> None -> get (o ++ o')%list k = get o k.
Proof.
  induction o as [|[k' v'] r IH]; simpl; [congruence|].
  destruct (k' =? k); auto.
Qed.

Lemma get_app_r o o' k : get o k = None -> get (o ++ o')%list k = get o' k.
Proof.
  induction o as [|[k' v'] r IH]; simpl; [reflexivity|].
  destruct (k' =? k); [discriminate | auto].
Qed.

Lemma get_replace_same o k v :
  get o k <> None -> get (replace k v o) k = Some v.
Proof.
  induction o as [|[k' v'] r IH]; simpl; [congruence|].
  destruct (String.eqb_spec k' k) as [->|Hne]; simpl.
  - now rewrite String.eqb_refl.
  - intro H. destruct (String.eqb_spec k' k); [congruence | auto].
Qed.

Lemma get_replace_other o k k' v :
  k' <> k -> get (replace k v o) k' = get o k'.
Proof.
  intro Hne. induction o as [|[k0 v0] r IH]; simpl; [reflexivity|].
  destruct (String.eqb_spec k0 k) as [->|Hne0]; simpl.
  - destruct (String.eqb_spec k k'); [congruence|].
    reflexivity.
  - now rewrite IH.
Qed.

Lemma keys_replace o k v : get o k <> None -> keys (replace k v o) = keys o.
Proof.
  unfold keys. induction o as [|[k' v'] r IH]; simpl; [reflexivity|].
  destruct (String.eqb_spec k' k) as [->|Hne]; simpl.
  - reflexivity.
  - intro H. now rewrite IH.
Qed.

Lemma get_insert_index_same n o k v :
  get o k = None -> get (insert_index n k v o) k = Some v.
Proof.
  induction o as [|[k' v'] r IH]; simpl.
  - now rewrite String.eqb_refl.
  - destruct (String.eqb_spec k' k) as [->|Hne]; [discriminate|].
    intro H.
    destruct (array_index k') as [m|]; [destruct (m <? n)%N|]; simpl;
      rewrite ?String.eqb_refl; auto.
    destruct (String.eqb_spec k' k); [congruence | auto].
Qed.

Lemma get_insert_index_other n o k k' v :
  k' <> k -> get (insert_index n k v o) k' = get o k'.
Proof.
  intro Hne. induction o as [|[k0 v0] r IH]; simpl.
  - destruct (String.eqb_spec k k'); [congruence | reflexivity].
  - destruct (array_index k0) as [m|]; [destruct (m <? n)%N|]; simpl;
      try (destruct (String.eqb_spec k k'); [congruence | reflexivity]).
    now rewrite IH.
Qed.

(** Reading back the property just written. *)
Lemma get_set_same o k v : get (set k v o) k = Some v.
Proof.
  unfold set. destruct (mem o k) eqn:Hm.
  - apply get_replace_same. now apply mem_true_iff.
  - assert (Hn : get o k = None).
    { unfold mem in Hm. destruct (get o k); [discriminate | reflexivity]. }
    destruct (array_index k).
    + now apply get_insert_index_same.
    + rewrite get_app_r by assumption. simpl. now rewrite String.eqb_refl.
Qed.

(** Every other property is copied unchanged. *)
Lemma get_set_other o k k' v : k' <> k -> get (set k v o) k' = get o k'.
Proof.
  intro Hne. unfold set. destruct (mem o k) eqn:Hm.
  - now apply get_replace_other.
  - destruct (array_index k).
    + now apply get_insert_index_other.
    + destruct (get o k') eqn:Hg.
      * rewrite get_app_l; congruence.
      * rewrite get_app_r by assumption. simpl.
        destruct (String.eqb_spec k k'); [congruence | reflexivity].
Qed.

Lemma in_keys_set o k k' v :
  In k' (keys (set k v o)) <-> k' = k \/ In k' (keys o).
Proof.
  rewrite <- !get_keys. destruct (string_dec k' k) as [->|Hne].
  - rewrite get_set_same. split; [auto | congruence].
  - rewrite get_set_other by assumption. tauto.
Qed.

(** Writing a property the object has keeps the enumeration order. *)
Lemma keys_set_present o k v : In k (keys o) -> keys (set k v o) = keys o.
Proof.
  intro H. unfold set.
  apply mem_keys in H as Hm. rewrite Hm.
  apply keys_replace. now apply get_keys.
Qed.

Lemma keys_app o o' : keys (o ++ o')%list = (keys o ++ keys o')%list.
Proof. apply map_app. Qed.

Lemma in_keys_insert_index n o k k' v :
  In k' (keys (insert_index n k v o)) <-> k' = k \/ In k' (keys o).
Proof.
  induction o as [|[k0 v0] r IH]; simpl.
  - intuition congruence.
  - destruct (array_index k0) as [m|]; [destruct (m <? n)%N|]; simpl;
      rewrite ?IH; intuition congruence.
Qed.

Lemma NoDup_insert_index n o k v :
  ~ In k (keys o) -> NoDup (keys o) -> NoDup (keys (insert_index n k v o)).
Proof.
  induction o as [|[k0 v0] r IH]; simpl; intros Hk Hnd.
  - constructor; [tauto | constructor].
  - inversion Hnd as [|? ? Hk0 Hr]; subst.
    assert (Hcons : NoDup (k :: k0 :: keys r))
      by (constructor; [simpl; tauto | assumption]).
    destruct (array_index k0) as [m|]; [destruct (m <? n)%N|]; simpl;
      try exact Hcons.
    constructor; [|apply IH; tauto].
    rewrite in_keys_insert_index. intuition congruence.
Qed.

Lemma ordered_insert_index n o k v : forall lo,
  array_index k = Some n -> (lo <= n)%N ->
  ordered_from lo (keys o) = true ->
  ordered_from lo (keys (insert_index n k v o)) = true.
Proof.
  induction o as [|[k0 v0] r IH]; simpl; intros lo Hk Hlo Ho.
  - rewrite Hk. now rewrite (proj2 (N.leb_le lo n) Hlo).
  - destruct (array_index k0) as [m|] eqn:Hk0.
    + apply andb_true_iff in Ho as [Hm Hr].
      destruct (N.ltb_spec m n) as [Hlt|Hge]; simpl.
      * rewrite Hk0, Hm. simpl. apply IH; auto. lia.
      * rewrite Hk, Hk0, Hr, (proj2 (N.leb_le lo n) Hlo).
        now rewrite (proj2 (N.leb_le n m) Hge).
    + simpl. rewrite Hk, Hk0, Ho. now rewrite (proj2 (N.leb_le lo n) Hlo).
Qed.

Lemma ordered_append o k v : forall lo,
  array_index k = None ->
  ordered_from lo (keys o) = true ->
  ordered_from lo (keys (o ++ [(k, v)])%list) = true.
Proof.
  assert (Hnamed : forall ks, forallb named ks = true ->
                              forallb named (ks ++ [k])%list = true
                              \/ array_index k <> None).
  { intros ks Hks. destruct (array_index k) eqn:Hk; [right; congruence|].
    left. rewrite forallb_app, Hks. simpl. unfold named. now rewrite Hk. }
  induction o as [|[k0 v0] r IH]; simpl; intros lo Hk Ho.
  - now rewrite Hk.
  - destruct (array_index k0) as [m|].
    + apply andb_true_iff in Ho as [Hm Hr]. rewrite Hm. simpl. auto.
    + rewrite keys_app. simpl.
      destruct (Hnamed _ Ho) as [H|H]; [assumption | congruence].
Qed.

Lemma get_assign_same o k v :
  k <> "__proto__" -> get (assign k v o) k = Some v.
Proof.
  intro Hk. unfold assign.
  destruct (String.eqb_spec k "__proto__"); [contradiction|].
  rewrite andb_false_r. apply get_set_same.
Qed.

Lemma get_assign_other o k k' v :
  k' <> k -> get (assign k v o) k' = get o k'.
Proof.
  intro Hne. unfold assign.
  destruct (negb (mem o k) && (k =? "__proto__")); [reflexivity|].
  now apply get_set_other.
Qed.

(** The assignment never creates the key "__proto__". *)
Lemma get_assign_proto o k v :
  get o "__proto__" = None -> get (assign k v o) "__proto__" = None.
Proof.
  intro Hp. unfold assign.
  destruct (String.eqb_spec k "__proto__") as [->|Hne].
  - unfold mem. now rewrite Hp.
  - rewrite andb_false_r. rewrite get_set_other; congruence.
Qed.

(** Writing a property keeps the list an enumeration. *)
Lemma set_canonical o k v : canonical o -> canonical (set k v o).
Proof.
  intros [Hnd Ho]. unfold canonical, set.
  destruct (mem o k) eqn:Hm.
  - rewrite keys_replace by now apply mem_true_iff. auto.
  - assert (Hk : ~ In k (keys o)) by (rewrite <- mem_keys; congruence).
    destruct (array_index k) as [n|] eqn:Hidx.
    + split; [now apply NoDup_insert_index|].
      apply ordered_insert_index; auto. lia.
    + split; [|now apply ordered_append].
      rewrite keys_app. simpl. apply NoDup_app; auto.
      * constructor; [tauto | constructor].
      * intros x Hx [<-|[]]. contradiction.
Qed.

Lemma assign_canonical o k v : canonical o -> canonical (assign k v o).
Proof.
  intro H. unfold assign.
  destruct (negb (mem o k) && (k =? "__proto__")); [assumption|].
  now apply set_canonical.
Qed.

End Lookup.
End ObjFacts.

(** ** Strings *)

Module JsFacts.

Lemma truthy_true_iff s : truthy s = true <-> s <> "".
Proof.
  unfold truthy. destruct (String.eqb_spec s ""); simpl; split; congruence.
Qed.

Lemma or_else_nonempty a d : d <> "" -> or_else a d <> "".
Proof.
  intro Hd. unfold or_else. destruct a as [s|]; [|assumption].
  destruct (truthy s) eqn:Ht; [|assumption].
  now apply truthy_true_iff.
Qed.

(** [customError || d] is the custom message when one is set (to a
    non-empty string) and the built-in message otherwise. *)
Lemma or_else_cases a d :
  (forall s, a = Some s -> s <> "" -> or_else a d = s)
  /\ (a = None -> or_else a d = d)
  /\ (a = Some "" -> or_else a d = d).
Proof.
  repeat split.
  - intros s -> Hs. unfold or_else.
    apply truthy_true_iff in Hs. now rewrite Hs.
  - now intros ->.
  - now intros ->.
Qed.

Lemma strict_eq_true_iff a b : strict_eq a b = true <-> a = b.
Proof.
  destruct a as [x|], b as [y|]; simpl; try (split; congruence).
  destruct (String.eqb_spec x y); split; congruence.
Qed.

Lemma length_zero_iff s : (String.length s =? 0)%nat = true <-> s = "".
Proof.
  destruct s; simpl; split; congruence.
Qed.

Lemma trimStart_spec s :
  exists l, s = l ++ trimStart s
            /\ all_white l = true /\ head_white (trimStart s) = false.
Proof.
  induction s as [|c r IH]; simpl.
  - exists "". auto.
  - destruct (is_white c) eqn:Hc.
    + destruct IH as (l & Hs & Hl & Hh).
      exists (String c l). simpl. rewrite Hc, Hl, <- Hs. auto.
    + exists "". simpl. auto.
Qed.

Lemma trimEnd_spec s :
  exists r, s = trimEnd s ++ r
            /\ all_white r = true /\ last_white (trimEnd s) = false.
Proof.
  induction s as [|c s IH]; simpl.
  - exists "". auto.
  - destruct IH as (r & Hs & Hr & Hl).
    destruct (trimEnd s) as [|c' t] eqn:Ht.
    + simpl in Hs. subst r. destruct (is_white c) eqn:Hc.
      * exists (String c s). simpl. rewrite Hc, Hr. auto.
      * exists s. simpl. rewrite Hc. auto.
    + exists r. simpl in Hs. repeat split.
      * simpl. now f_equal.
      * assumption.
      * exact Hl.
Qed.

Lemma trimEnd_head s : head_white s = false -> head_white (trimEnd s) = false.
Proof.
  destruct s as [|c s]; simpl; [reflexivity|].
  intro Hc. destruct (trimEnd s); [rewrite Hc|]; simpl; auto.
Qed.

(** [trim] removes a run of white space at each end and nothing else,
    and what is left neither starts nor ends with white space. *)
Lemma trim_spec s :
  exists l r,
    s = l ++ trim s ++ r
    /\ all_white l = true /\ all_white r = true
    /\ head_white (trim s) = false /\ last_white (trim s) = false.
Proof.
  unfold trim.
  destruct (trimStart_spec s) as (l & Hs & Hl & Hh).
  destruct (trimEnd_spec (trimStart s)) as (r & Hs' & Hr & Hlast).
  exists l, r. rewrite <- Hs'. repeat split; auto using trimEnd_head.
Qed.

End JsFacts.

(** ** Patterns *)

Module RegexFacts.
Import Regex.

Lemma append_empty s1 s2 : s1 ++ s2 = "" -> s1 = "" /\ s2 = "".
Proof. destruct s1; simpl; [auto | discriminate]. Qed.

Lemma nullable_lang r : nullable r = true <-> lang r "".
Proof.
  split.
  - induction r; simpl; intro H; try discriminate.
    + constructor.
    + apply andb_true_iff in H as [H1 H2].
      change "" with ("" ++ ""). constructor; auto.
    + apply orb_true_iff in H as [H|H];
        [apply lang_alt_l | apply lang_alt_r]; auto.
    + constructor.
  - intro H. remember "" as s eqn:Hs.
    induction H; simpl; subst; try discriminate; auto.
    + apply append_empty in Hs as [-> ->]. now rewrite IHlang1, IHlang2.
    + now rewrite IHlang.
    + rewrite IHlang by reflexivity. apply orb_true_r.
Qed.

Lemma deriv_sound c r : forall s, lang (deriv c r) s -> lang r (String c s).
Proof.
  induction r; simpl; intros s H.
  - inversion H.
  - inversion H.
  - destruct (p c) eqn:Hp; inversion H; subst. now constructor.
  - assert (Hseq : forall s, lang (Seq (deriv c r1) r2) s ->
                             lang (Seq r1 r2) (String c s)).
    { intros s0 H0. inversion H0; subst.
      change (String c (s1 ++ s2)) with (String c s1 ++ s2).
      constructor; auto. }
    destruct (nullable r1) eqn:Hn; [|auto].
    inversion H; subst; [auto|].
    change (String c s) with ("" ++ String c s).
    constructor; [now apply nullable_lang | auto].
  - inversion H; subst; [apply lang_alt_l | apply lang_alt_r]; auto.
  - inversion H; subst.
    change (String c (s1 ++ s2)) with (String c s1 ++ s2).
    constructor; auto.
Qed.

Lemma deriv_complete c r w :
  lang r w -> forall s, w = String c s -> lang (deriv c r) s.
Proof.
  induction 1 as [ |p c0 Hp|r1 r2 s1 s2 H1 IH1 H2 IH2|r1 r2 s0 H1 IH1
                  |r1 r2 s0 H1 IH1| |r s1 s2 H1 IH1 H2 IH2];
    intros s Hw; simpl; try discriminate.
  - injection Hw as -> <-. rewrite Hp. constructor.
  - destruct s1 as [|c1 s1']; simpl in Hw.
    + apply nullable_lang in H1. rewrite H1. apply lang_alt_r. auto.
    + injection Hw as -> <-.
      assert (lang (Seq (deriv c r1) r2) (s1' ++ s2))
        by (constructor; auto).
      destruct (nullable r1); [now apply lang_alt_l | assumption].
  - apply lang_alt_l. auto.
  - apply lang_alt_r. auto.
  - destruct s1 as [|c1 s1']; simpl in Hw.
    + apply (IH2 s Hw).
    + injection Hw as -> <-. constructor; auto.
Qed.

(** [matches] decides membership in the language of the pattern. *)
Lemma matches_lang s : forall r, matches r s = true <-> lang r s.
Proof.
  induction s as [|c s IH]; simpl; intro r.
  - apply nullable_lang.
  - rewrite IH. split; [apply deriv_sound|].
    intro H. now apply (deriv_complete c r (String c s)).
Qed.

Lemma all_in_app q s1 s2 :
  all_in q (s1 ++ s2) = all_in q s1 && all_in q s2.
Proof.
  induction s1 as [|c s1 IH]; simpl; [reflexivity|].
  now rewrite IH, andb_assoc.
Qed.

Lemma all_in_weaken (p q : ascii -> bool) s :
  (forall c, p c = true -> q c = true) ->
  all_in p s = true -> all_in q s = true.
Proof.
  intro Hpq. induction s as [|c s IH]; simpl; [reflexivity|].
  rewrite !andb_true_iff. intros [H1 H2]. auto.
Qed.

Lemma star_class q s : lang (Star (Class q)) s <-> all_in q s = true.
Proof.
  split.
  - intro H. remember (Star (Class q)) as r eqn:Hr.
    induction H; try discriminate; [reflexivity|].
    injection Hr as ->. inversion H; subst. simpl.
    rewrite IHlang2 by reflexivity.
    match goal with Hq : q _ = true |- _ => now rewrite Hq end.
  - induction s as [|c s IH]; simpl; intro H; [constructor|].
    apply andb_true_iff in H as [Hc Hs].
    change (String c s) with (String c "" ++ s).
    constructor; [now constructor | auto].
Qed.

Lemma plus_class p s :
  lang (Plus (Class p)) s <->
  exists c r, s = String c r /\ p c = true /\ all_in p r = true.
Proof.
  unfold Plus. split.
  - intro H. inversion H as [ | |r1 r2 s1 s2 H1 H2| | | | ]; subst.
    inversion H1; subst. apply star_class in H2. simpl. eauto.
  - intros (c & r & -> & Hc & Hr).
    change (String c r) with (String c "" ++ r).
    constructor; [now constructor | now apply star_class].
Qed.

Section NamePatterns.
Variables p q : ascii -> bool.
Hypothesis p_in_q : forall c, p c = true -> q c = true.

(** [/^p+q+$/]: a character of [p], then at least one more character,
    all of them in [q]. *)
Lemma plus_plus_matches s :
  matches (Seq (Plus (Class p)) (Plus (Class q))) s = true <->
  exists c r, s = String c r /\ p c = true
              /\ r <> "" /\ all_in q r = true.
Proof.
  rewrite matches_lang. split.
  - intro H. inversion H as [ | |r1' r2' s1 s2 H1 H2| | | | ]; subst.
    apply plus_class in H1 as (c & r1 & -> & Hc & Hr1).
    apply plus_class in H2 as (c2 & r2 & -> & Hc2 & Hr2).
    exists c, (r1 ++ String c2 r2). repeat split; auto.
    + intro Hnil. apply append_empty in Hnil as [_ Hnil]. discriminate.
    + rewrite all_in_app. simpl.
      rewrite (all_in_weaken p q r1 p_in_q Hr1), Hc2, Hr2. reflexivity.
  - intros (c & r & -> & Hc & Hne & Hr).
    destruct r as [|c2 r2]; [congruence|].
    simpl in Hr. apply andb_true_iff in Hr as [Hc2 Hr2].
    change (String c (String c2 r2)) with (String c "" ++ String c2 r2).
    constructor; apply plus_class; eauto.
Qed.

(** [/^p+q*$/]: a character of [p], then any number of characters of
    [q]. *)
Lemma plus_star_matches s :
  matches (Seq (Plus (Class p)) (Star (Class q))) s = true <->
  exists c r, s = String c r /\ p c = true /\ all_in q r = true.
Proof.
  rewrite matches_lang. split.
  - intro H. inversion H as [ | |r1' r2' s1 s2 H1 H2| | | | ]; subst.
    apply plus_class in H1 as (c & r1 & -> & Hc & Hr1).
    apply star_class in H2.
    exists c, (r1 ++ s2). repeat split; auto.
    rewrite all_in_app, (all_in_weaken p q r1 p_in_q Hr1), H2. reflexivity.
  - intros (c & r & -> & Hc & Hr).
    change (String c r) with (String c "" ++ r).
    constructor; [apply plus_class; eauto | now apply star_class].
Qed.

End NamePatterns.

Lemma a_z_i_first_name_tail c :
  a_z_i c = true -> first_name_tail c = true.
Proof. unfold first_name_tail. now intros ->. Qed.

Lemma a_z_i_last_name_tail c :
  a_z_i c = true -> last_name_tail c = true.
Proof. unfold last_name_tail. now intros ->. Qed.

(** The two name patterns of src/index.ts: a letter, then one or more
    characters of the tail class. *)
Lemma firstNamePattern_index_ts s :
  matches (firstNamePattern index_ts) s = true <->
  exists c r, s = String c r /\ a_z_i c = true
              /\ r <> "" /\ all_in first_name_tail r = true.
Proof. apply plus_plus_matches, a_z_i_first_name_tail. Qed.

Lemma lastNamePattern_index_ts s :
  matches (lastNamePattern index_ts) s = true <->
  exists c r, s = String c r /\ a_z_i c = true
              /\ r <> "" /\ all_in last_name_tail r = true.
Proof. apply plus_plus_matches, a_z_i_last_name_tail. Qed.

(** The same patterns in src/unnamed/part_000: a letter, then any
    number of characters of the tail class. *)
Lemma firstNamePattern_part_000 s :
  matches (firstNamePattern part_000) s = true <->
  exists c r, s = String c r /\ a_z_i c = true
              /\ all_in first_name_tail r = true.
Proof. apply plus_star_matches, a_z_i_first_name_tail. Qed.

Lemma lastNamePattern_part_000 s :
  matches (lastNamePattern part_000) s = true <->
  exists c r, s = String c r /\ a_z_i c = true
              /\ all_in last_name_tail r = true.
Proof. apply plus_star_matches, a_z_i_last_name_tail. Qed.

Example firstName_accepts_compound_name :
  matches (firstNamePattern index_ts) "John O'Brien-Smith" = true.
Proof. reflexivity. Qed.

Example firstName_rejects_leading_digit :
  matches (firstNamePattern index_ts) "1John" = false.
Proof. reflexivity. Qed.

Example lastName_accepts_comma :
  matches (lastNamePattern index_ts) "Smith, Jr." = true
  /\ matches (firstNamePattern index_ts) "Smith, Jr." = false.
Proof. split; reflexivity. Qed.

End RegexFacts.

(** ** The validation pass *)

Module PassFacts.
Import Obj ObjFacts JsFacts.

Lemma forEach_Ok_inv {A B} (f : A -> Result B) l bs :
  forEach f l = Ok bs ->
  (forall b, In b bs -> exists x, In x l /\ f x = Ok b)
  /\ (forall x, In x l -> exists b, In b bs /\ f x = Ok b).
Proof.
  revert bs. induction l as [|x r IH]; simpl; intros bs H.
  - injection H as <-. split; intros ? [].
  - destruct (f x) as [b|] eqn:Hx; simpl in H; [|discriminate].
    destruct (forEach f r) as [bs'|]; simpl in H; [|discriminate].
    injection H as <-. destruct (IH bs' eq_refl) as [IH1 IH2].
    split.
    + intros b' [<-|Hin]; [exists x; auto|].
      destruct (IH1 _ Hin) as (y & Hy & Hfy). exists y; auto.
    + intros y [<-|Hin]; [exists b; simpl; auto|].
      destruct (IH2 _ Hin) as (b' & Hb & Hfy). exists b'; simpl; auto.
Qed.

Lemma forEach_total {A B} (f : A -> Result B) l :
  (forall x, In x l -> exists b, f x = Ok b) ->
  exists bs, forEach f l = Ok bs.
Proof.
  induction l as [|x r IH]; simpl; intro H.
  - now exists [].
  - destruct (H x (or_introl eq_refl)) as [b ->].
    destruct IH as [bs ->]; [intros; apply H; now right|].
    simpl. now exists (b :: bs).
Qed.

Section WithValidator.
Context {V : Validator}.
Implicit Types (fs : Fields) (es : Errors) (k : string).

(** Each branch of the callback dispatches to the field it was called
    for. *)
Lemma validate_field_target src fs k a :
  validate_field src fs k = Ok a -> exists e, a = UPDATE_ERROR k e.
Proof.
  unfold validate_field, dispatchValid.
  destruct (get fs k) as [f|]; simpl; [|discriminate].
  destruct (validation f) as [vl|]; simpl; [|discriminate].
  destruct (truthy_flag (optional vl)); [intros [= <-]; eauto|].
  destruct (type vl); simpl;
    try (destruct (value f) as [v|]; simpl; [|discriminate]);
    repeat match goal with
           | |- context [if ?b then _ else _] => destruct b
           end;
    intros [= <-]; eauto.
Qed.

Lemma validate_field_present src fs k a :
  validate_field src fs k = Ok a ->
  exists f vl, get fs k = Some f /\ validation f = Some vl.
Proof.
  unfold validate_field.
  destruct (get fs k) as [f|]; simpl; [|discriminate].
  destruct (validation f) as [vl|] eqn:Hvl; simpl; [|discriminate].
  intros _. now exists f, vl.
Qed.

Lemma typed_get fs k f : typed fs = true -> get fs k = Some f ->
  typed_field f = true.
Proof.
  unfold typed. rewrite forallb_forall. intros Ht Hg.
  apply Ht. apply get_In in Hg. now apply (in_map snd) in Hg.
Qed.

(** On a store of the declared type the callback never throws. *)
Lemma validate_field_total src fs k :
  typed fs = true -> In k (keys fs) ->
  exists e, validate_field src fs k = Ok (UPDATE_ERROR k e).
Proof.
  intros Ht Hk. apply get_keys in Hk.
  destruct (get fs k) as [f|] eqn:Hg; [clear Hk | congruence].
  pose proof (typed_get _ _ _ Ht Hg) as Hf. unfold typed_field in Hf.
  destruct (validate_field src fs k) as [a|] eqn:Hv.
  - destruct (validate_field_target _ _ _ _ Hv) as [e ->]. eauto.
  - exfalso. revert Hv. unfold validate_field. rewrite Hg. simpl.
    destruct (value f) as [v|]; [|discriminate].
    destruct (validation f) as [vl|]; [simpl|discriminate].
    destruct (truthy_flag (optional vl)); [discriminate|].
    destruct (type vl); simpl;
      repeat match goal with
             | |- context [if ?b then _ else _] => destruct b
             end; discriminate.
Qed.

Lemma validate_total src fs :
  typed fs = true -> exists actions, validate src fs = Ok actions.
Proof.
  intro Ht. apply forEach_total. intros k Hk.
  destruct (validate_field_total src fs k Ht Hk) as [e He]. eauto.
Qed.

(** The dispatches of a completed pass: one target per key of the
    field store, and no other target. *)
Lemma validate_dispatches src fs actions :
  validate src fs = Ok actions ->
  (forall a, In a actions ->
     exists k e, a = UPDATE_ERROR k e /\ In k (keys fs)
                 /\ validate_field src fs k = Ok a)
  /\ (forall k, In k (keys fs) ->
        exists e, In (UPDATE_ERROR k e) actions
                  /\ validate_field src fs k = Ok (UPDATE_ERROR k e)).
Proof.
  intro H. apply forEach_Ok_inv in H as [H1 H2]. split.
  - intros a Ha. destruct (H1 a Ha) as (k & Hk & Hv).
    destruct (validate_field_target _ _ _ _ Hv) as [e ->]. eauto.
  - intros k Hk. destruct (H2 k Hk) as (a & Ha & Hv).
    destruct (validate_field_target _ _ _ _ Hv) as [e ->]. eauto.
Qed.

(** The entry of [k] after the dispatches went through the reducer,
    when every dispatch to [k] carries [e]. *)
Lemma settle_get actions es k e :
  (forall e', In (UPDATE_ERROR k e') actions -> e' = e) ->
  (exists e', In (UPDATE_ERROR k e') actions) \/ get es k = Some e ->
  get (settle actions es) k = Some e.
Proof.
  unfold settle. revert es.
  induction actions as [|a r IH]; simpl; intros es Hall Hsome.
  - destruct Hsome as [[e' []]|H]; assumption.
  - apply IH; [intros e' He'; apply Hall; now right|].
    destruct a as [k' e'|tag Htag]; simpl.
    + destruct (string_dec k' k) as [->|Hne].
      * right. rewrite get_set_same. f_equal. apply Hall. now left.
      * rewrite get_set_other by congruence.
        destruct Hsome as [[e'' [Heq|Hin]]|H]; eauto; congruence.
    + destruct Hsome as [[e'' [Heq|Hin]]|H]; eauto; discriminate.
Qed.

Lemma settle_get_other actions es k :
  (forall e', ~ In (UPDATE_ERROR k e') actions) ->
  get (settle actions es) k = get es k.
Proof.
  unfold settle. revert es.
  induction actions as [|a r IH]; simpl; intros es Hall; [reflexivity|].
  rewrite IH by (intros e' He'; apply (Hall e'); now right).
  destruct a as [k' e'|tag Htag]; simpl; [|reflexivity].
  apply get_set_other. intros ->. apply (Hall e'). now left.
Qed.

Lemma settle_keys actions es k :
  In k (keys (settle actions es)) <->
  In k (keys es) \/ exists e, In (UPDATE_ERROR k e) actions.
Proof.
  unfold settle. revert es.
  induction actions as [|a r IH]; simpl; intros es.
  - split; [auto | intros [H|[e []]]; assumption].
  - rewrite IH. destruct a as [k' e'|tag Htag]; simpl.
    + rewrite in_keys_set. split.
      * intros [[->|H]|[e H]]; eauto.
      * intros [H|[e [[= -> ->]|H]]]; eauto.
    + split.
      * intros [H|[e H]]; eauto.
      * intros [H|[e [Heq|H]]]; eauto; discriminate.
Qed.

(** What a pass leaves in the entry of a field: the error of the one
    action the callback dispatches for it. *)
Lemma pass_entry src fs es es' k e :
  validation_pass src fs es = Ok es' ->
  In k (keys fs) ->
  validate_field src fs k = Ok (UPDATE_ERROR k e) ->
  get es' k = Some e.
Proof.
  unfold validation_pass. intros Hp Hk Hv.
  destruct (validate src fs) as [actions|] eqn:Hval; simpl in Hp;
    [|discriminate].
  injection Hp as <-.
  apply validate_dispatches in Hval as [H1 H2].
  apply settle_get.
  - intros e' He'. destruct (H1 _ He') as (k0 & e0 & Heq & _ & Hv0).
    injection Heq as <- <-. congruence.
  - left. destruct (H2 k Hk) as (e0 & Hin & _). eauto.
Qed.

(** On a store of the declared type the pass completes, and the entry
    of every field is settled by its callback. *)
Lemma pass_settles src fs es k f e :
  typed fs = true ->
  get fs k = Some f ->
  validate_field src fs k = Ok (UPDATE_ERROR k e) ->
  exists es', validation_pass src fs es = Ok es' /\ get es' k = Some e.
Proof.
  intros Ht Hg Hv.
  destruct (validate_total src fs Ht) as [actions Hval].
  assert (Hp : validation_pass src fs es = Ok (settle actions es)).
  { unfold validation_pass. now rewrite Hval. }
  exists (settle actions es). split; [assumption|].
  eapply pass_entry; eauto. apply get_keys. congruence.
Qed.

End WithValidator.
End PassFacts.

(** ** The callback, branch by branch *)

Module BranchFacts.
Import Obj ObjFacts JsFacts PassFacts.

Lemma required_flag (o : option bool) :
  o <> Some true -> truthy_flag o = false.
Proof. destruct o as [[|]|]; simpl; congruence. Qed.

(** The single-character input of both name patterns: the source's [+]
    asks for a second character, the other file's [*] does not. *)
Lemma plus_plus_single (p q : ascii -> bool) c :
  Regex.matches
    (Regex.Seq (Regex.Plus (Regex.Class p)) (Regex.Plus (Regex.Class q)))
    (String c "") = false.
Proof.
  simpl. destruct (p c); simpl; now rewrite ?andb_false_r.
Qed.

Lemma plus_star_single (p q : ascii -> bool) c :
  p c = true ->
  Regex.matches
    (Regex.Seq (Regex.Plus (Regex.Class p)) (Regex.Star (Regex.Class q)))
    (String c "") = true.
Proof. intro Hp. simpl. now rewrite Hp. Qed.

Section WithValidator.
Context {V : Validator}.
Variables (src : SourceFile) (fs : Fields) (k : string).
Variables (f : Field) (vl : Validation).
Hypothesis Hget : get fs k = Some f.
Hypothesis Hvalidation : validation f = Some vl.

Ltac enter_branch :=
  unfold validate_field, dispatchValid; rewrite Hget; simpl;
  rewrite Hvalidation; simpl.

Lemma validate_field_optional :
  optional vl = Some true ->
  validate_field src fs k = Ok (UPDATE_ERROR k "").
Proof. intro Ho. enter_branch. now rewrite Ho. Qed.

Hypothesis Hrequired : optional vl <> Some true.

Lemma validate_field_email v :
  type vl = email -> value f = Some v ->
  validate_field src fs k =
  Ok (UPDATE_ERROR k
        (if (String.length v =? 0)%nat then "Please provide an email"
         else if isEmail v then ""
              else or_else (customError vl) "Please provide a valid email")).
Proof.
  intros Ht Hv. enter_branch.
  rewrite (required_flag _ Hrequired), Ht, Hv. simpl.
  destruct (String.length v =? 0)%nat; [reflexivity|].
  now destruct (isEmail v).
Qed.


Lemma validate_field_passwordConfirmation :
  type vl = passwordConfirmation ->
  validate_field src fs k =
  Ok (UPDATE_ERROR k
        (if strict_eq (value f) (attr value fs "password") then ""
         else or_else (customError vl) "Passwords do not match")).
Proof.
  intros Ht. enter_branch.
  rewrite (required_flag _ Hrequired), Ht.
  now destruct (strict_eq (value f) (attr value fs "password")).
Qed.

Lemma validate_field_firstName v :
  type vl = firstName -> value f = Some v ->
  validate_field src fs k =
  Ok (UPDATE_ERROR k
        (if (String.length v =? 0)%nat
         then or_else (customError vl) "Please provide a first name."
         else if Regex.matches (firstNamePattern src) v then ""
              else or_else (customError vl) firstNamePatternError)).
Proof.
  intros Ht Hv. enter_branch.
  rewrite (required_flag _ Hrequired), Ht, Hv. simpl.
  destruct (String.length v =? 0)%nat; [reflexivity|].
  now destruct (Regex.matches (firstNamePattern src) v).
Qed.

Lemma validate_field_lastName v :
  type vl = lastName -> value f = Some v ->
  validate_field src fs k =
  Ok (UPDATE_ERROR k
        (if (String.length v =? 0)%nat
         then or_else (customError vl) "Please provide a last name."
         else if Regex.matches (lastNamePattern src) v then ""
              else or_else (customError vl) lastNamePatternError)).
Proof.
  intros Ht Hv. enter_branch.
  rewrite (required_flag _ Hrequired), Ht, Hv. simpl.
  destruct (String.length v =? 0)%nat; [reflexivity|].
  now destruct (Regex.matches (lastNamePattern src) v).
Qed.

Lemma validate_field_none :
  type vl = none -> validate_field src fs k = Ok (UPDATE_ERROR k "").
Proof.
  intros Ht. enter_branch.
  now rewrite (required_flag _ Hrequired), Ht.
Qed.

End WithValidator.
End BranchFacts.

(** ** Reducers and reachable states *)

Module HookFacts.
Import Obj ObjFacts JsFacts PassFacts.

Lemma fieldsReducer_keys fs a k :
  In k (keys (fieldsReducer fs a)) <->
  In k (keys fs) \/ FormAction_field a = Some k.
Proof.
  destruct a as [k' v|k'|tag Htag]; simpl.
  - rewrite in_keys_set. intuition congruence.
  - rewrite in_keys_set. intuition congruence.
  - split; [auto | intros [H|H]; [assumption | discriminate]].
Qed.

(** No form action touches a [validation] attribute. *)
Lemma fieldsReducer_validation fs a k :
  attr validation (fieldsReducer fs a) k = attr validation fs k.
Proof.
  unfold attr.
  destruct a as [k' v|k'|tag Htag]; simpl; [| |reflexivity];
    (destruct (string_dec k k') as [->|Hne];
     [rewrite get_set_same; simpl; now destruct (get fs k')
     |now rewrite get_set_other]).
Qed.

Lemma init_errors_notin l (acc : Errors) k :
  ~ In k l ->
  get (fold_left (fun acc current => assign current "" acc) l acc) k
  = get acc k.
Proof.
  revert acc. induction l as [|x r IH]; simpl; intros acc Hn;
    [reflexivity|].
  rewrite IH by tauto. apply get_assign_other. intuition congruence.
Qed.

Lemma init_errors_in l (acc : Errors) k :
  k <> "__proto__" -> In k l ->
  get (fold_left (fun acc current => assign current "" acc) l acc) k
  = Some "".
Proof.
  intro Hk. revert acc.
  induction l as [|x r IH]; simpl; intros acc Hin; [easy|].
  destruct (in_dec string_dec k r) as [Hr|Hr]; [now apply IH|].
  destruct Hin as [->|Hin]; [|contradiction].
  rewrite init_errors_notin by assumption. now apply get_assign_same.
Qed.

Lemma init_errors_proto l (acc : Errors) :
  get acc "__proto__" = None ->
  get (fold_left (fun acc current => assign current "" acc) l acc)
      "__proto__"
  = None.
Proof.
  revert acc. induction l as [|x r IH]; simpl; intros acc Hp;
    [assumption|].
  apply IH. now apply get_assign_proto.
Qed.

(** The error store of the first render: one empty entry per key of
    the initial field store other than "__proto__", and nothing
    else. *)
Lemma useForm_errorState initialState k :
  get (errorState (useForm initialState)) k
  = if mem initialState k && negb (k =? "__proto__") then Some ""
    else None.
Proof.
  simpl. destruct (String.eqb_spec k "__proto__") as [->|Hne].
  - rewrite andb_false_r. now apply init_errors_proto.
  - rewrite andb_true_r. destruct (mem initialState k) eqn:Hm.
    + apply init_errors_in; [assumption | now apply mem_keys].
    + rewrite init_errors_notin; [reflexivity|].
      rewrite <- mem_keys. congruence.
Qed.

Section Runs.
Context {V : Validator}.
Variable src : SourceFile.

(** A property kept by every step of a run holds at its end. *)
Lemma run_invariant (P : HookState -> Prop) (Q : Event -> bool) :
  (forall st ev st',
      P st -> Q ev = true -> step src st ev = Ok st' -> P st') ->
  forall evs st st',
    P st -> forallb Q evs = true -> run src st evs = Ok st' -> P st'.
Proof.
  intro Hstep. induction evs as [|ev r IH]; simpl; intros st st' HP HQ Hrun.
  - now injection Hrun as <-.
  - apply andb_true_iff in HQ as [HQ1 HQ2].
    destruct (step src st ev) as [st1|] eqn:Hs; simpl in Hrun;
      [|discriminate].
    apply (IH st1 st'); [|assumption|assumption].
    now apply (Hstep st ev st1).
Qed.

Lemma step_cases st ev st' :
  step src st ev = Ok st' ->
  (formState st' = formState st /\ errorState st' = errorState st)
  \/ (exists a, ev = dispatchFormAction a
                /\ formState st' = fieldsReducer (formState st) a
                /\ errorState st' = errorState st)
  \/ (ev = effect
      /\ formState st' = formState st
      /\ validation_pass src (formState st) (errorState st)
         = Ok (errorState st')).
Proof.
  destruct ev; simpl; try (intros [= <-]; simpl; eauto 6).
  destruct (validation_pass src (formState st) (errorState st)) as [es|];
    simpl; [|discriminate].
  intros [= <-]; simpl. auto.
Qed.

Lemma pass_keys fs es es' k :
  validation_pass src fs es = Ok es' ->
  In k (keys es') <->
  In k (keys es) \/ (In k (keys fs) /\ attr validation fs k <> None).
Proof.
  unfold validation_pass.
  destruct (validate src fs) as [actions|] eqn:Hval; simpl; [|discriminate].
  intros [= <-]. rewrite settle_keys.
  apply validate_dispatches in Hval as [H1 H2].
  split; (intros [H|H]; [now left|right]).
  - destruct H as [e He].
    destruct (H1 _ He) as (k0 & e0 & [= <- <-] & Hk & Hv).
    split; [assumption|].
    destruct (validate_field_present _ _ _ _ Hv) as (f & vl & Hf & Hvl).
    unfold attr. rewrite Hf. congruence.
  - destruct H as [Hk _]. destruct (H2 k Hk) as (e & He & _). eauto.
Qed.

Lemma settle_canonical actions (es : Errors) :
  canonical es -> canonical (settle actions es).
Proof.
  unfold settle. revert es.
  induction actions as [|a r IH]; simpl; intros es Hes; [assumption|].
  apply IH. destruct a; simpl; [now apply set_canonical | assumption].
Qed.

Lemma useForm_canonical initialState :
  canonical (errorState (useForm initialState)).
Proof.
  simpl. generalize (keys initialState) as l.
  assert (Hfold : forall l (acc : Errors), canonical acc ->
            canonical
              (fold_left (fun acc current => assign current "" acc) l acc)).
  { induction l as [|x r IH]; simpl; intros acc Hacc; [assumption|].
    apply IH. now apply assign_canonical. }
  intro l. apply Hfold. split; [constructor | reflexivity].
Qed.

(** Both stores stay enumerations along a run. *)
Lemma canonical_run initialState evs st :
  canonical initialState ->
  run src (useForm initialState) evs = Ok st ->
  canonical (formState st) /\ canonical (errorState st).
Proof.
  intros Hc Hrun.
  apply (run_invariant
           (fun st => canonical (formState st) /\ canonical (errorState st))
           (fun _ => true))
    with (evs := evs) (st := useForm initialState);
    [|split; [assumption | apply useForm_canonical]
     |now apply forallb_forall|assumption].
  intros s ev s' [Hf He] _ Hs.
  destruct (step_cases _ _ _ Hs)
    as [[Hf' He']|[(a & -> & Hf' & He')|(-> & Hf' & Hp)]];
    rewrite Hf'; try rewrite He'; try (split; assumption).
  - split; [|assumption].
    destruct a; simpl; [now apply set_canonical .. | assumption].
  - split; [assumption|].
    unfold validation_pass in Hp.
    destruct (validate src (formState s)) as [actions|]; simpl in Hp;
      [|discriminate].
    injection Hp as <-. now apply settle_canonical.
Qed.

Variable initialState : Fields.

Lemma stores_agree_init : stores_agree initialState (useForm initialState).
Proof.
  split; [|split; [|reflexivity]].
  - intros k Hk. apply get_keys in Hk. apply mem_keys.
    rewrite useForm_errorState in Hk. cbn [formState useForm].
    destruct (mem initialState k); [reflexivity | simpl in Hk; congruence].
  - intros k Hne Hk. apply get_keys. rewrite useForm_errorState.
    apply mem_keys in Hk. rewrite Hk.
    destruct (String.eqb_spec k "__proto__"); [contradiction|].
    discriminate.
Qed.

Lemma stores_agree_step st ev st' :
  stores_agree initialState st -> step src st ev = Ok st' ->
  stores_agree initialState st'.
Proof.
  intros (H1 & H2 & H3) Hs.
  destruct (step_cases _ _ _ Hs)
    as [[Hf He]|[(a & -> & Hf & He)|(-> & Hf & Hp)]].
  - unfold stores_agree. rewrite Hf, He. auto.
  - unfold stores_agree. rewrite Hf, He. repeat split; auto.
    + intros k Hk. apply fieldsReducer_keys. auto.
    + intro k. now rewrite fieldsReducer_validation.
  - unfold stores_agree. rewrite Hf. repeat split; auto.
    + intros k Hk. apply (pass_keys _ _ _ k Hp) in Hk.
      destruct Hk as [Hk|[Hk _]]; auto.
    + intros k Hne Hk. apply (pass_keys _ _ _ k Hp). auto.
Qed.

Lemma stores_agree_run evs st :
  run src (useForm initialState) evs = Ok st -> stores_agree initialState st.
Proof.
  intro Hrun.
  apply (run_invariant (stores_agree initialState) (fun _ => true)
           (fun st ev st' HP _ Hs => stores_agree_step st ev st' HP Hs)
           evs (useForm initialState) st stores_agree_init).
  - now apply forallb_forall.
  - assumption.
Qed.

(** While form actions target initial keys the field store keeps its
    key list. *)
Lemma known_targets_step st ev st' :
  keys (formState st) = keys initialState ->
  targets_known initialState ev = true ->
  step src st ev = Ok st' ->
  keys (formState st') = keys initialState.
Proof.
  intros Hk Ht Hs.
  destruct (step_cases _ _ _ Hs)
    as [[Hf He]|[(a & -> & Hf & He)|(-> & Hf & Hp)]];
    rewrite Hf; try assumption.
  destruct a as [k v|k|tag Htag]; simpl in *; try assumption;
    (rewrite keys_set_present; [assumption|];
     rewrite Hk; now apply mem_keys).
Qed.

Lemma known_targets_run evs st :
  forallb (targets_known initialState) evs = true ->
  run src (useForm initialState) evs = Ok st ->
  keys (formState st) = keys initialState.
Proof.
  intros Ht Hrun.
  apply (run_invariant (fun st => keys (formState st) = keys initialState)
           (targets_known initialState) known_targets_step
           evs (useForm initialState) st eq_refl Ht Hrun).
Qed.

End Runs.

(** ** [formInvalid] *)

Lemma find_spec {A} (p : A -> Result bool) (q : A -> bool) l :
  (forall x, In x l -> p x = Ok (q x)) ->
  exists r, find p l = Ok r
            /\ match r with
               | Some x => In x l /\ q x = true
               | None => forall x, In x l -> q x = false
               end.
Proof.
  induction l as [|x r IH]; simpl; intro Hp.
  - exists None. split; [reflexivity | intros ? []].
  - rewrite (Hp x (or_introl eq_refl)). simpl.
    destruct (q x) eqn:Hq.
    + exists (Some x). auto.
    + destruct IH as (res & Hres & Hspec); [intros; apply Hp; now right|].
      exists res. split; [assumption|].
      destruct res as [y|]; [tauto|].
      intros y [<-|Hy]; auto.
Qed.

Lemma invalid_required_iff fs es k :
  invalid_required fs es k = true <->
  exists e, get es k = Some e /\ e <> "" /\ optional_flag fs k <> Some true.
Proof.
  unfold invalid_required. rewrite andb_true_iff, negb_true_iff. split.
  - intros [He Ho]. destruct (get es k) as [e|]; [|discriminate].
    exists e. simpl in He. apply truthy_true_iff in He.
    repeat split; auto. intro H. rewrite H in Ho. discriminate.
  - intros (e & -> & He & Ho). simpl. split.
    + now apply truthy_true_iff.
    + now apply BranchFacts.required_flag.
Qed.

(** When every key of the error store names a field with a
    [validation] attribute, [formInvalid] does not throw; when moreover
    no key is the empty string, it is true exactly when some entry is
    non-empty on a field that is not optional. *)
Lemma formInvalid_spec fs es :
  (forall k, In k (keys es) -> attr validation fs k <> None) ->
  ~ In "" (keys es) ->
  exists b, formInvalid fs es = Ok b
            /\ (b = true <->
                exists k e, get es k = Some e /\ e <> ""
                            /\ optional_flag fs k <> Some true).
Proof.
  intros Hval Hempty. unfold formInvalid.
  destruct (find_spec
              (fun key =>
                 if truthy_opt (get es key) then
                   field <- prop (get fs key) ;;
                   validation <- prop (validation field) ;;
                   Ok (negb (truthy_flag (optional validation)))
                 else Ok false)
              (invalid_required fs es) (keys es)) as (r & Hr & Hspec).
  { intros k Hk. unfold invalid_required, optional_flag.
    specialize (Hval k Hk). unfold attr in *.
    destruct (truthy_opt (get es k)); [|reflexivity].
    destruct (get fs k) as [f|]; [simpl|congruence].
    destruct (validation f) as [vl|]; [reflexivity|congruence]. }
  rewrite Hr. simpl. eexists. split; [reflexivity|].
  destruct r as [k|]; simpl.
  - destruct Hspec as [Hk Hq]. split.
    + intros _. apply invalid_required_iff in Hq as (e & He). eauto.
    + intros _. apply truthy_true_iff. intros ->. contradiction.
  - split; [discriminate|].
    intros (k & e & He & Hne & Ho).
    assert (Hk : In k (keys es)) by (apply get_keys; congruence).
    specialize (Hspec k Hk).
    assert (invalid_required fs es k = true)
      by (apply invalid_required_iff; eauto).
    congruence.
Qed.

End HookFacts.

(** ** The stand-in validator *)

Lemma plain_validator_laws : ValidatorLaws plain_validator.
Proof. split; reflexivity. Qed.

(** * The specification's statements *)

Section Validation.
Import Obj ObjFacts JsFacts PassFacts BranchFacts.
Context {V : Validator}.

(** C2.  A field whose [validation.optional] flag is true has the empty
    string as its error entry after a validation pass, whatever its
    value and whatever its validation type. *)
Theorem optional_field_error_empty src fs es k f vl :
  typed fs = true ->
  get fs k = Some f ->
  validation f = Some vl ->
  optional vl = Some true ->
  exists es', validation_pass src fs es = Ok es' /\ get es' k = Some "".
Proof.
  intros Ht Hg Hvl Ho.
  apply (pass_settles src fs es k f "" Ht Hg).
  now apply (validate_field_optional src fs k f vl).
Qed.

(** C3.  A required [passwordConfirmation] field gets the empty error
    when its value is the current value of the field keyed "password".
    When the two differ, or when the field store has no field keyed
    "password", it gets the mismatch error, which is never empty: the
    field's [customError] when that is set to a non-empty string, and
    "Passwords do not match" when it is absent or empty. *)
Theorem passwordConfirmation_error src fs es k f vl v :
  typed fs = true ->
  get fs k = Some f ->
  validation f = Some vl ->
  optional vl <> Some true ->
  type vl = passwordConfirmation ->
  value f = Some v ->
  exists es' e,
    validation_pass src fs es = Ok es'
    /\ get es' k = Some e
    /\ (forall p, get fs "password" = Some p -> value p = Some v -> e = "")
    /\ (get fs "password" = None
        \/ (exists p, get fs "password" = Some p /\ value p <> Some v) ->
        e <> ""
        /\ (customError vl = None -> e = "Passwords do not match")
        /\ (forall c, customError vl = Some c -> c <> "" -> e = c)
        /\ (customError vl = Some "" -> e = "Passwords do not match")).
Proof.
  intros Ht Hg Hvl Ho Hty Hv.
  pose proof (validate_field_passwordConfirmation src fs k f vl Hg Hvl Ho Hty)
    as Hfield.
  destruct (pass_settles src fs es k f _ Ht Hg Hfield) as (es' & Hp & He).
  exists es'. eexists. split; [exact Hp|]. split; [exact He|].
  rewrite Hv. unfold attr. split.
  - intros p -> ->. now rewrite (proj2 (strict_eq_true_iff _ _) eq_refl).
  - intro Hdiff.
    assert (Hne : strict_eq (Some v)
                    match get fs "password" with
                    | Some p => value p
                    | None => None
                    end = false).
    { destruct (strict_eq (Some v) _) eqn:Heq; [|reflexivity].
      apply strict_eq_true_iff in Heq.
      destruct Hdiff as [Hnone|(p & Hsome & Hval)].
      - rewrite Hnone in Heq. discriminate.
      - rewrite Hsome in Heq. congruence. }
    rewrite Hne.
    destruct (or_else_cases (customError vl) "Passwords do not match")
      as (H1 & H2 & H3).
    repeat split; auto. now apply or_else_nonempty.
Qed.

(** C4.  A required [email] field gets "Please provide an email" when
    its value is empty; when the value is non-empty and [isEmail]
    rejects it, the field's [customError] when that is set to a
    non-empty string and "Please provide a valid email" when it is
    absent or empty; and the empty error when [isEmail] accepts the
    value. *)
Theorem email_error (L : ValidatorLaws V) src fs es k f vl v :
  typed fs = true ->
  get fs k = Some f ->
  validation f = Some vl ->
  optional vl <> Some true ->
  type vl = email ->
  value f = Some v ->
  exists es' e,
    validation_pass src fs es = Ok es'
    /\ get es' k = Some e
    /\ (v = "" -> e = "Please provide an email")
    /\ (v <> "" -> isEmail v = false ->
        (customError vl = None -> e = "Please provide a valid email")
        /\ (forall c, customError vl = Some c -> c <> "" -> e = c)
        /\ (customError vl = Some "" -> e = "Please provide a valid email"))
    /\ (isEmail v = true -> e = "").
Proof.
  intros Ht Hg Hvl Ho Hty Hv.
  pose proof (validate_field_email src fs k f vl Hg Hvl Ho v Hty Hv)
    as Hfield.
  destruct (pass_settles src fs es k f _ Ht Hg Hfield) as (es' & Hp & He).
  exists es'. eexists. split; [exact Hp|]. split; [exact He|].
  split; [now intros ->|]. split.
  - intros Hne Hno.
    destruct (String.length v =? 0)%nat eqn:Hlen;
      [apply length_zero_iff in Hlen; contradiction|].
    rewrite Hno.
    destruct (or_else_cases (customError vl) "Please provide a valid email")
      as (H1 & H2 & H3).
    repeat split; auto.
  - intro Hyes.
    destruct (String.length v =? 0)%nat eqn:Hlen.
    + apply length_zero_iff in Hlen. subst v.
      rewrite isEmail_empty in Hyes. discriminate.
    + now rewrite Hyes.
Qed.


(** C10.  In src/index.ts a required [firstName] or [lastName] field
    whose value is a single letter gets the pattern error, which is
    not empty: both patterns end in [+] and ask for a second
    character.  In src/unnamed/part_000, whose patterns end in [*], the
    same field gets the empty error. *)
Theorem single_letter_name_error fs es k f vl c :
  typed fs = true ->
  get fs k = Some f ->
  validation f = Some vl ->
  optional vl <> Some true ->
  type vl = firstName \/ type vl = lastName ->
  value f = Some (String c "") ->
  Regex.a_z_i c = true ->
  (exists es' e,
      validation_pass index_ts fs es = Ok es'
      /\ get es' k = Some e
      /\ e = or_else (customError vl)
               (match type vl with
                | firstName => firstNamePatternError
                | _ => lastNamePatternError
                end)
      /\ e <> "")
  /\ (exists es',
         validation_pass part_000 fs es = Ok es' /\ get es' k = Some "").
Proof.
  intros Ht Hg Hvl Ho Hty Hv Hc. split.
  - assert (Hfield :
        validate_field index_ts fs k
        = Ok (UPDATE_ERROR k
                (or_else (customError vl)
                   (match type vl with
                    | firstName => firstNamePatternError
                    | _ => lastNamePatternError
                    end)))).
    { destruct Hty as [Hty|Hty]; rewrite Hty.
      - rewrite (validate_field_firstName index_ts fs k f vl Hg Hvl Ho
                   _ Hty Hv).
        simpl firstNamePattern. now rewrite plus_plus_single.
      - rewrite (validate_field_lastName index_ts fs k f vl Hg Hvl Ho
                   _ Hty Hv).
        simpl lastNamePattern. now rewrite plus_plus_single. }
    destruct (pass_settles index_ts fs es k f _ Ht Hg Hfield)
      as (es' & Hp & He).
    exists es'. eexists. repeat split; eauto.
    apply or_else_nonempty. destruct Hty as [-> | ->]; discriminate.
  - apply (pass_settles part_000 fs es k f "" Ht Hg).
    destruct Hty as [Hty|Hty].
    + rewrite (validate_field_firstName part_000 fs k f vl Hg Hvl Ho
                 _ Hty Hv).
      simpl firstNamePattern. now rewrite plus_star_single.
    + rewrite (validate_field_lastName part_000 fs k f vl Hg Hvl Ho
                 _ Hty Hv).
      simpl lastNamePattern. now rewrite plus_star_single.
Qed.

End Validation.

Lemma optional_field_error_empty_witness :
  exists es',
    validation_pass (V := plain_validator) index_ts sign_up Obj.empty = Ok es'
    /\ Obj.get es' "nickname" = Some "".
Proof.
  apply (optional_field_error_empty (V := plain_validator)
           index_ts sign_up Obj.empty "nickname"
           (field_of "" email None (Some true))
           (validation_of email None (Some true)));
    reflexivity.
Defined.

Lemma passwordConfirmation_error_witness :
  (exists es',
      validation_pass (V := plain_validator) index_ts sign_up Obj.empty
      = Ok es'
      /\ Obj.get es' "confirm" = Some "")
  /\ (exists es',
         validation_pass (V := plain_validator) index_ts custom_errors
           Obj.empty
         = Ok es'
         /\ Obj.get es' "confirm" = Some "Type it again").
Proof.
  split.
  - edestruct (passwordConfirmation_error (V := plain_validator)
                 index_ts sign_up Obj.empty "confirm"
                 (field_of "secret1" passwordConfirmation None None)
                 (validation_of passwordConfirmation None None) "secret1")
      as (es' & e & Hp & He & Hsame & _);
      [reflexivity | reflexivity | reflexivity | discriminate
      | reflexivity | reflexivity |].
    exists es'. split; [exact Hp|]. rewrite He. f_equal.
    apply (Hsame (field_of "secret1" password None None));
      reflexivity.
  - edestruct (passwordConfirmation_error (V := plain_validator)
                 index_ts custom_errors Obj.empty "confirm"
                 (field_of "secret2" passwordConfirmation
                    (Some "Type it again") None)
                 (validation_of passwordConfirmation
                    (Some "Type it again") None) "secret2")
      as (es' & e & Hp & He & _ & Hdiff);
      [reflexivity | reflexivity | reflexivity | discriminate
      | reflexivity | reflexivity |].
    exists es'. split; [exact Hp|]. rewrite He. f_equal.
    apply Hdiff; [|reflexivity | discriminate].
    right.
    exists (field_of "abc" password
              (Some "Seriously, THAT'S your password?") None).
    split; [reflexivity | discriminate].
Defined.

Lemma email_error_witness :
  (exists es',
      validation_pass (V := plain_validator) index_ts sign_up Obj.empty
      = Ok es'
      /\ Obj.get es' "email" = Some "")
  /\ (exists es',
         validation_pass (V := plain_validator) index_ts custom_errors
           Obj.empty
         = Ok es'
         /\ Obj.get es' "email" = Some "That's just wrong")
  /\ (exists es',
         validation_pass (V := plain_validator) index_ts anonymous_field
           Obj.empty
         = Ok es'
         /\ Obj.get es' "" = Some "Please provide an email").
Proof.
  split; [|split].
  - edestruct (email_error (V := plain_validator) plain_validator_laws
                 index_ts sign_up Obj.empty "email"
                 (field_of "a@b.com" email None None)
                 (validation_of email None None) "a@b.com")
      as (es' & e & Hp & He & _ & _ & Hvalid);
      [reflexivity | reflexivity | reflexivity | discriminate
      | reflexivity | reflexivity |].
    exists es'. split; [exact Hp|]. rewrite He. f_equal.
    apply Hvalid. reflexivity.
  - edestruct (email_error (V := plain_validator) plain_validator_laws
                 index_ts custom_errors Obj.empty "email"
                 (field_of "not-an-email" email
                    (Some "That's just wrong") None)
                 (validation_of email (Some "That's just wrong") None)
                 "not-an-email")
      as (es' & e & Hp & He & _ & Hformat & _);
      [reflexivity | reflexivity | reflexivity | discriminate
      | reflexivity | reflexivity |].
    exists es'. split; [exact Hp|]. rewrite He. f_equal.
    apply Hformat; [discriminate | reflexivity | reflexivity | discriminate].
  - edestruct (email_error (V := plain_validator) plain_validator_laws
                 index_ts anonymous_field Obj.empty ""
                 (field_of "" email None None)
                 (validation_of email None None) "")
      as (es' & e & Hp & He & Hempty & _);
      [reflexivity | reflexivity | reflexivity | discriminate
      | reflexivity | reflexivity |].
    exists es'. split; [exact Hp|]. rewrite He. f_equal.
    apply Hempty. reflexivity.
Defined.


Lemma single_letter_name_error_witness :
  (exists es' e,
      validation_pass (V := plain_validator) index_ts sign_up Obj.empty
      = Ok es'
      /\ Obj.get es' "firstName" = Some e
      /\ e = firstNamePatternError
      /\ e <> "")
  /\ (exists es',
         validation_pass (V := plain_validator) part_000 sign_up Obj.empty
         = Ok es'
         /\ Obj.get es' "firstName" = Some "").
Proof.
  apply (single_letter_name_error (V := plain_validator)
           sign_up Obj.empty "firstName"
           (field_of "J" firstName None None)
           (validation_of firstName None None) "J"%char);
    first [reflexivity | discriminate | left; reflexivity].
Defined.

(** ** Reducers *)

Section Reducers.
Import Obj ObjFacts JsFacts.

(** C6.  [UPDATE_VALUE] replaces the [value] attribute of its field by
    the trimmed value, a copy of the dispatched value without the white
    space at its two ends, and leaves the [blurred] and [validation]
    attributes of that field and every other field as they were;
    dispatching "  a@b.com  " stores "a@b.com". *)
Theorem UPDATE_VALUE_stores_trimmed_value (state : Fields) field v :
  attr value (fieldsReducer state (UPDATE_VALUE field v)) field
  = Some (trim v)
  /\ attr blurred (fieldsReducer state (UPDATE_VALUE field v)) field
     = attr blurred state field
  /\ attr validation (fieldsReducer state (UPDATE_VALUE field v)) field
     = attr validation state field
  /\ (forall k, k <> field ->
        get (fieldsReducer state (UPDATE_VALUE field v)) k = get state k)
  /\ (exists l r,
         v = l ++ trim v ++ r
         /\ all_white l = true /\ all_white r = true
         /\ head_white (trim v) = false /\ last_white (trim v) = false)
  /\ attr value
       (fieldsReducer state (UPDATE_VALUE field "  a@b.com  ")) field
     = Some "a@b.com".
Proof.
  unfold attr. simpl. rewrite !get_set_same. simpl.
  repeat split.
  - now destruct (get state field).
  - now destruct (get state field).
  - intros k Hk. now apply get_set_other.
  - apply trim_spec.
Qed.

(** C8.  [BLUR_INPUT] sets the [blurred] attribute of its field to
    true and leaves the [value] and [validation] attributes of that
    field and every other field as they were. *)
Theorem BLUR_INPUT_sets_blurred (state : Fields) field :
  attr blurred (fieldsReducer state (BLUR_INPUT field)) field = Some true
  /\ attr value (fieldsReducer state (BLUR_INPUT field)) field
     = attr value state field
  /\ attr validation (fieldsReducer state (BLUR_INPUT field)) field
     = attr validation state field
  /\ (forall k, k <> field ->
        get (fieldsReducer state (BLUR_INPUT field)) k = get state k).
Proof.
  unfold attr. simpl. rewrite !get_set_same. simpl.
  repeat split.
  - now destruct (get state field).
  - now destruct (get state field).
  - intros k Hk. now apply get_set_other.
Qed.

(** C9.  On an action whose [type] tag is none of the recognized ones
    each reducer returns the state it was given, so dispatching such a
    form action leaves the field store and the error store as they
    were. *)
Theorem unrecognized_action_identity {V : Validator} src
    (fields : Fields) (errors : Errors) (st : HookState)
    (fa : FormAction) (ea : ErrorAction) :
  FormAction_type fa <> "UPDATE_VALUE" ->
  FormAction_type fa <> "BLUR_INPUT" ->
  ErrorAction_type ea <> "UPDATE_ERROR" ->
  fieldsReducer fields fa = fields
  /\ errorsReducer errors ea = errors
  /\ step src st (dispatchFormAction fa) = Ok st.
Proof.
  intros Hu Hb He.
  destruct fa as [k v|k|tag Htag]; simpl in *; try congruence.
  destruct ea as [k e|tag' Htag']; simpl in *; try congruence.
  repeat split. now destruct st.
Qed.

End Reducers.

Lemma unrecognized_action_identity_witness :
  fieldsReducer sign_up (OtherFormAction "RESET" eq_refl) = sign_up
  /\ errorsReducer Obj.empty (OtherErrorAction "CLEAR" eq_refl) = Obj.empty
  /\ step (V := plain_validator) index_ts (useForm sign_up)
       (dispatchFormAction (OtherFormAction "RESET" eq_refl))
     = Ok (useForm sign_up).
Proof.
  apply (unrecognized_action_identity (V := plain_validator) index_ts
           sign_up Obj.empty (useForm sign_up)
           (OtherFormAction "RESET" eq_refl)
           (OtherErrorAction "CLEAR" eq_refl));
    discriminate.
Defined.

(** ** Reachable states *)

Section Reachable.
Import Obj ObjFacts JsFacts PassFacts HookFacts.
Context {V : Validator}.
Variables (src : SourceFile) (initialState : Fields).

Lemma typed_validation k :
  typed initialState = true -> In k (keys initialState) ->
  attr validation initialState k <> None.
Proof.
  intros Ht Hk. apply get_keys in Hk. unfold attr.
  destruct (get initialState k) as [f|] eqn:Hg; [|congruence].
  pose proof (typed_get _ _ _ Ht Hg) as Hf. unfold typed_field in Hf.
  destruct (value f); [|discriminate].
  destruct (validation f); [discriminate | discriminate].
Qed.

(** From an initial state of the declared type, the error store never
    holds a key outside the initial field store. *)
Lemma error_keys_initial evs st :
  typed initialState = true ->
  run src (useForm initialState) evs = Ok st ->
  forall k, In k (keys (errorState st)) -> In k (keys initialState).
Proof.
  intros Ht Hrun.
  enough (H : stores_agree initialState st
              /\ forall k, In k (keys (errorState st)) ->
                           In k (keys initialState)) by apply H.
  apply (run_invariant src
           (fun st => stores_agree initialState st
                      /\ forall k, In k (keys (errorState st)) ->
                                   In k (keys initialState))
           (fun _ => true)) with (evs := evs) (st := useForm initialState);
    [| |now apply forallb_forall|assumption].
  - intros s ev s' [Hagree Hsub] _ Hs. split.
    + eapply stores_agree_step; eauto.
    + destruct (step_cases _ _ _ _ Hs)
        as [[Hf He]|[(a & -> & Hf & He)|(-> & Hf & Hp)]];
        try (rewrite He; assumption).
      intros k Hk. apply (pass_keys _ _ _ _ k Hp) in Hk.
      destruct Hk as [Hk|[_ Hk]]; [auto|].
      destruct Hagree as (_ & _ & H3). rewrite H3 in Hk.
      apply get_keys. unfold attr in Hk.
      destruct (get initialState k); congruence.
  - split; [apply stores_agree_init|].
    intros k Hk. apply get_keys in Hk. apply mem_keys.
    rewrite useForm_errorState in Hk.
    destruct (mem initialState k); [reflexivity | simpl in Hk; congruence].
Qed.

(** [formInvalid] on reachable states of a form without an
    empty-string key: it returns, and it is true exactly when some
    error entry is non-empty on a field whose [optional] flag is not
    true. *)
Lemma formInvalid_reachable evs st :
  typed initialState = true ->
  ~ In "" (keys initialState) ->
  run src (useForm initialState) evs = Ok st ->
  exists b,
    formInvalid (formState st) (errorState st) = Ok b
    /\ (b = true <->
        exists k e, get (errorState st) k = Some e /\ e <> ""
                    /\ optional_flag (formState st) k <> Some true).
Proof.
  intros Ht Hempty Hrun.
  pose proof (error_keys_initial evs st Ht Hrun) as Hsub.
  destruct (stores_agree_run src initialState evs st Hrun) as (_ & _ & H3).
  apply formInvalid_spec.
  - intros k Hk. rewrite H3. apply typed_validation; auto.
  - intro H. apply Hempty. auto.
Qed.

(** With no non-empty entry left on a required field, [formInvalid]
    is false. *)
Lemma formInvalid_false_when_all_settled evs st :
  typed initialState = true ->
  ~ In "" (keys initialState) ->
  run src (useForm initialState) evs = Ok st ->
  (forall k e, get (errorState st) k = Some e ->
               optional_flag (formState st) k <> Some true -> e = "") ->
  formInvalid (formState st) (errorState st) = Ok false.
Proof.
  intros Ht Hempty Hrun Hall.
  destruct (formInvalid_reachable evs st Ht Hempty Hrun) as (b & Hb & Hiff).
  rewrite Hb. destruct b; [|reflexivity].
  destruct (proj1 Hiff eq_refl) as (k & e & He & Hne & Ho).
  elim Hne. eauto.
Qed.

(** C7 (amended).  Leaving aside the key "__proto__": the error store
    starts with one empty entry per key of the initial field store;
    every dispatch of a validation pass targets a key of the field
    store; in every reachable state each key of the error store is a
    key of the field store and each initial key has an error entry;
    and the two stores have the same keys as long as every dispatched
    form action targets a key of the initial field store. *)
Theorem error_keys_within_field_keys evs st :
  run src (useForm initialState) evs = Ok st ->
  (forall k,
      k <> "__proto__" ->
      get (errorState (useForm initialState)) k
      = if mem initialState k then Some "" else None)
  /\ (forall actions a,
         validate src (formState st) = Ok actions -> In a actions ->
         exists k e, a = UPDATE_ERROR k e /\ In k (keys (formState st)))
  /\ (forall k, In k (keys (errorState st)) -> In k (keys (formState st)))
  /\ (forall k,
         k <> "__proto__" ->
         In k (keys initialState) -> In k (keys (errorState st)))
  /\ (forallb (targets_known initialState) evs = true ->
      forall k,
        k <> "__proto__" ->
        (In k (keys (formState st)) <-> In k (keys (errorState st)))).
Proof.
  intro Hrun.
  destruct (stores_agree_run src initialState evs st Hrun) as (H1 & H2 & _).
  split.
  { intros k Hne. rewrite useForm_errorState.
    destruct (String.eqb_spec k "__proto__"); [contradiction|].
    now rewrite andb_true_r. }
  split.
  { intros actions a Hval Ha.
    apply validate_dispatches in Hval as [Hd _].
    destruct (Hd a Ha) as (k & e & -> & Hk & _). eauto. }
  split; [exact H1|]. split; [exact H2|].
  intros Hknown k Hne. split.
  - intro Hk. apply H2; [assumption|].
    now rewrite <- (known_targets_run src initialState evs st Hknown Hrun).
  - apply H1.
Qed.

End Reachable.

Lemma error_keys_within_field_keys_witness :
  (forall k,
      k <> "__proto__" ->
      Obj.get (errorState (useForm sign_up)) k
      = if Obj.mem sign_up k then Some "" else None)
  /\ (forall actions a,
         validate (V := plain_validator) index_ts
           (fieldsReducer sign_up (BLUR_INPUT "email")) = Ok actions ->
         In a actions ->
         exists k e,
           a = UPDATE_ERROR k e
           /\ In k (Obj.keys (fieldsReducer sign_up (BLUR_INPUT "email"))))
  /\ (forall k,
         In k (Obj.keys (errorState (useForm sign_up))) ->
         In k (Obj.keys (fieldsReducer sign_up (BLUR_INPUT "email"))))
  /\ (forall k,
         k <> "__proto__" ->
         In k (Obj.keys sign_up) ->
         In k (Obj.keys (errorState (useForm sign_up))))
  /\ (forallb (targets_known sign_up)
        [dispatchFormAction (BLUR_INPUT "email")] = true ->
      forall k,
        k <> "__proto__" ->
        (In k (Obj.keys (fieldsReducer sign_up (BLUR_INPUT "email")))
         <-> In k (Obj.keys (errorState (useForm sign_up))))).
Proof.
  apply (error_keys_within_field_keys (V := plain_validator) index_ts
           sign_up [dispatchFormAction (BLUR_INPUT "email")]
           {| loading := false;
              didAttemptSubmit := false;
              formState := fieldsReducer sign_up (BLUR_INPUT "email");
              errorState := errorState (useForm sign_up);
              globalFormError := None |}).
  reflexivity.
Defined.

(** C7, as stated, fails in src/index.ts, whose [FormAction] accepts
    any string as [field]: an [UPDATE_VALUE] for a key the form was not
    created with adds that key to the field store and not to the error
    store. *)
Lemma unknown_field_has_no_error_entry :
  exists st,
    run (V := plain_validator) index_ts (useForm sign_up)
      [dispatchFormAction (UPDATE_VALUE "middleName" "Q")] = Ok st
    /\ typed sign_up = true
    /\ In "middleName" (Obj.keys (formState st))
    /\ ~ In "middleName" (Obj.keys (errorState st)).
Proof.
  eexists. split; [reflexivity|].
  split; [reflexivity|].
  split.
  - vm_compute. tauto.
  - vm_compute. intuition discriminate.
Qed.

(** The pass that follows such a dispatch throws at the new field,
    which has no [validation] attribute. *)
Lemma unknown_field_pass_throws :
  run (V := plain_validator) index_ts (useForm sign_up)
    [dispatchFormAction (UPDATE_VALUE "middleName" "Q"); effect]
  = TypeError.
Proof. reflexivity. Qed.

(** The assignment that fills the first error store creates no entry
    for an own key "__proto__"; the first pass adds one through the
    reducer. *)
Lemma proto_key_entry_comes_with_first_pass :
  Obj.keys (errorState (useForm proto_form)) = ["email"]
  /\ exists st,
       run (V := plain_validator) index_ts (useForm proto_form) [effect]
       = Ok st
       /\ Obj.keys (errorState st) = ["email"; "__proto__"].
Proof.
  split; [reflexivity|]. eexists. split; reflexivity.
Qed.

(** C1.  The derived flag misses a field whose key is the empty
    string.  After the first pass over [anonymous_field] the error
    entry of its required field is non-empty, and [formInvalid] is
    false: [find] returns the key, and [!!""] is false. *)
Theorem formInvalid_misses_empty_key (V : Validator) :
  exists st,
    run index_ts (useForm anonymous_field) [effect] = Ok st
    /\ typed anonymous_field = true
    /\ Obj.get (errorState st) "" = Some "Please provide an email"
    /\ optional_flag (formState st) "" <> Some true
    /\ formInvalid (formState st) (errorState st) = Ok false.
Proof.
  eexists. split; [reflexivity|].
  repeat split. discriminate.
Qed.

(** * Further properties of the hook *)

(** ** Writing a property twice *)

Module ObjMore.
Import Obj ObjFacts.

Section Overwrite.
Context {A : Type}.
Implicit Types (o : t A) (k : string) (v : A).

Lemma replace_replace o k v1 v2 :
  replace k v2 (replace k v1 o) = replace k v2 o.
Proof.
  induction o as [|[k' v'] r IH]; simpl; [reflexivity|].
  destruct (String.eqb_spec k' k) as [->|Hne]; simpl.
  - now rewrite String.eqb_refl.
  - destruct (String.eqb_spec k' k); [congruence|]. now rewrite IH.
Qed.

Lemma replace_insert_index n o k v1 v2 :
  get o k = None ->
  replace k v2 (insert_index n k v1 o) = insert_index n k v2 o.
Proof.
  induction o as [|[k' v'] r IH]; simpl.
  - now rewrite String.eqb_refl.
  - destruct (String.eqb_spec k' k) as [->|Hne]; [discriminate|].
    intro Hg.
    destruct (array_index k') as [m|]; [destruct (m <? n)%N|]; simpl;
      rewrite ?String.eqb_refl; try reflexivity.
    destruct (String.eqb_spec k' k); [congruence|]. now rewrite IH.
Qed.

Lemma replace_append o k v1 v2 :
  get o k = None ->
  replace k v2 (o ++ [(k, v1)])%list = (o ++ [(k, v2)])%list.
Proof.
  induction o as [|[k' v'] r IH]; simpl.
  - now rewrite String.eqb_refl.
  - destruct (String.eqb_spec k' k) as [->|Hne]; [discriminate|].
    intro Hg. now rewrite IH.
Qed.

(** The second of two writes to a key wins, and the key stays where
    the first write put it. *)
Lemma set_set o k v1 v2 : set k v2 (set k v1 o) = set k v2 o.
Proof.
  assert (Hm : mem (set k v1 o) k = true)
    by (apply mem_true_iff; rewrite get_set_same; discriminate).
  unfold set at 1. rewrite Hm. unfold set.
  destruct (mem o k) eqn:Hk.
  - apply replace_replace.
  - assert (Hg : get o k = None)
      by (unfold mem in Hk; destruct (get o k); [discriminate|reflexivity]).
    destruct (array_index k).
    + now apply replace_insert_index.
    + now apply replace_append.
Qed.

Lemma replace_same o k v : get o k = Some v -> replace k v o = o.
Proof.
  induction o as [|[k' v'] r IH]; simpl; [reflexivity|].
  destruct (String.eqb_spec k' k) as [->|Hne].
  - now intros [= ->].
  - intro Hg. now rewrite IH.
Qed.

(** Writing the value a key already has changes nothing. *)
Lemma set_same o k v : get o k = Some v -> set k v o = o.
Proof.
  intro Hg. unfold set.
  assert (Hm : mem o k = true) by (apply mem_true_iff; congruence).
  rewrite Hm. now apply replace_same.
Qed.

Lemma In_replace o k v x :
  In x (replace k v o) -> x = (k, v) \/ In x o.
Proof.
  induction o as [|[k' v'] r IH]; simpl; [tauto|].
  destruct (k' =? k); simpl; intuition.
Qed.

End Overwrite.
End ObjMore.

(** ** More on [trim] *)

Module TrimMore.
Import JsFacts.

Lemma trimStart_fixed s : head_white s = false -> trimStart s = s.
Proof. destruct s; simpl; [reflexivity | now intros ->]. Qed.

Lemma trimEnd_fixed s : last_white s = false -> trimEnd s = s.
Proof.
  induction s as [|c r IH]; simpl; [reflexivity|].
  destruct r as [|c' r'].
  - simpl. now intros ->.
  - intro H. now rewrite (IH H).
Qed.

Lemma trim_idempotent s : trim (trim s) = trim s.
Proof.
  destruct (trim_spec s) as (l & r & _ & _ & _ & Hh & Hl).
  unfold trim at 1. now rewrite (trimStart_fixed _ Hh), (trimEnd_fixed _ Hl).
Qed.

Lemma trim_all_white s : all_white s = true -> trim s = "".
Proof.
  unfold trim. induction s as [|c r IH]; simpl; [reflexivity|].
  intro H. apply andb_true_iff in H as [Hc Hr]. rewrite Hc. auto.
Qed.

End TrimMore.

(** ** Laws of the two reducers *)

Section ReducerLaws.
Import Obj ObjFacts ObjMore JsFacts TrimMore.

(** X1.  [UPDATE_ERROR] makes [error] the entry of [field] and leaves
    every other entry as it was; the keys afterwards are the old ones
    and [field], and an entry that existed keeps its place in the
    enumeration. *)
Theorem UPDATE_ERROR_sets_entry (state : Errors) field error :
  get (errorsReducer state (UPDATE_ERROR field error)) field = Some error
  /\ (forall k, k <> field ->
        get (errorsReducer state (UPDATE_ERROR field error)) k
        = get state k)
  /\ (forall k,
        In k (keys (errorsReducer state (UPDATE_ERROR field error)))
        <-> k = field \/ In k (keys state))
  /\ (In field (keys state) ->
      keys (errorsReducer state (UPDATE_ERROR field error)) = keys state).
Proof.
  simpl. repeat split.
  - apply get_set_same.
  - intros k Hk. now apply get_set_other.
  - apply in_keys_set.
  - apply in_keys_set.
  - apply keys_set_present.
Qed.

(** X2.  On one field [BLUR_INPUT] and [UPDATE_VALUE] commute: the two
    orders of dispatch give the same field store. *)
Theorem BLUR_INPUT_UPDATE_VALUE_commute (state : Fields) field v :
  fieldsReducer (fieldsReducer state (BLUR_INPUT field))
                (UPDATE_VALUE field v)
  = fieldsReducer (fieldsReducer state (UPDATE_VALUE field v))
                  (BLUR_INPUT field).
Proof.
  simpl. rewrite !get_set_same. simpl. now rewrite !set_set.
Qed.

(** X3.  Dispatching a form action a second time changes nothing, and
    neither does dispatching the value the store already holds after
    an [UPDATE_VALUE]. *)
Theorem fieldsReducer_idempotent (state : Fields) (a : FormAction) :
  fieldsReducer (fieldsReducer state a) a = fieldsReducer state a
  /\ (forall field v,
         fieldsReducer (fieldsReducer state (UPDATE_VALUE field v))
                       (UPDATE_VALUE field (trim v))
         = fieldsReducer state (UPDATE_VALUE field v)).
Proof.
  split.
  - destruct a as [k v|k|tag Htag]; simpl; [| |reflexivity];
      rewrite get_set_same; simpl; now rewrite set_set.
  - intros k v. simpl. rewrite get_set_same. simpl.
    now rewrite trim_idempotent, set_set.
Qed.

Lemma fieldsReducer_blurred_kept (state : Fields) a k :
  attr blurred state k = Some true ->
  attr blurred (fieldsReducer state a) k = Some true.
Proof.
  unfold attr. intro H.
  destruct a as [k' v|k'|tag Htag]; simpl; [| |assumption];
    (destruct (string_dec k k') as [->|Hne];
     [|now rewrite get_set_other]);
    rewrite get_set_same; simpl; [|reflexivity].
  destruct (get state k'); [assumption | discriminate].
Qed.

(** X4.  Nothing the hook does resets a touched field: once the
    [blurred] attribute of a field is true it is true in every later
    state. *)
Theorem blurred_stays_true {V : Validator} src st evs st' k :
  run src st evs = Ok st' ->
  attr blurred (formState st) k = Some true ->
  attr blurred (formState st') k = Some true.
Proof.
  intros Hrun Hb.
  apply (HookFacts.run_invariant src
           (fun s => attr blurred (formState s) k = Some true)
           (fun _ => true)) with (evs := evs) (st := st);
    [|assumption|now apply forallb_forall|assumption].
  intros s ev s' Hs _ Hstep.
  destruct (HookFacts.step_cases _ _ _ _ Hstep)
    as [[Hf _]|[(a & -> & Hf & _)|(-> & Hf & _)]];
    rewrite Hf; try assumption.
  now apply fieldsReducer_blurred_kept.
Qed.

End ReducerLaws.

Lemma blurred_stays_true_witness :
  attr blurred
    (fieldsReducer (fieldsReducer sign_up (BLUR_INPUT "email"))
                   (UPDATE_VALUE "email" "x@y.org"))
    "email"
  = Some true.
Proof.
  apply (blurred_stays_true (V := plain_validator) index_ts
           {| loading := false;
              didAttemptSubmit := false;
              formState := fieldsReducer sign_up (BLUR_INPUT "email");
              errorState := Obj.empty;
              globalFormError := None |}
           [dispatchFormAction (UPDATE_VALUE "email" "x@y.org")]
           {| loading := false;
              didAttemptSubmit := false;
              formState :=
                fieldsReducer (fieldsReducer sign_up (BLUR_INPUT "email"))
                              (UPDATE_VALUE "email" "x@y.org");
              errorState := Obj.empty;
              globalFormError := None |}
           "email");
    reflexivity.
Defined.

(** ** Laws of the validation pass *)

Module PassMore.
Import Obj ObjFacts ObjMore JsFacts PassFacts HookFacts.

Lemma forEach_throws {A B} (f : A -> Result B) l x :
  In x l -> f x = TypeError -> forEach f l = TypeError.
Proof.
  induction l as [|y r IH]; simpl; [tauto|].
  intros [->|Hin] Hx.
  - now rewrite Hx.
  - destruct (f y); [simpl | reflexivity]. now rewrite (IH Hin Hx).
Qed.

Lemma forEach_map {A B C} (f : A -> Result B) (g : B -> C) (h : A -> C) l :
  (forall x b, f x = Ok b -> g b = h x) ->
  forall bs, forEach f l = Ok bs -> map g bs = map h l.
Proof.
  intro Hf. induction l as [|x r IH]; simpl; intros bs H.
  - now injection H as <-.
  - destruct (f x) as [b|] eqn:Hx; simpl in H; [|discriminate].
    destruct (forEach f r) as [bs'|]; simpl in H; [|discriminate].
    injection H as <-. simpl. now rewrite (Hf x b Hx), (IH bs' eq_refl).
Qed.

Lemma typed_replace (fs : Fields) k f :
  typed fs = true -> typed_field f = true -> typed (replace k f fs) = true.
Proof.
  unfold typed. rewrite !forallb_forall. intros Hfs Hf x Hx.
  apply in_map_iff in Hx as ([k0 f0] & <- & Hin). simpl.
  apply In_replace in Hin as [[= -> ->]|Hin]; [assumption|].
  apply Hfs. now apply (in_map snd) in Hin.
Qed.

(** A form action on a key the store has keeps the store of the
    declared type and keeps its enumeration. *)
Lemma fieldsReducer_typed (fs : Fields) a :
  typed fs = true ->
  (forall k, FormAction_field a = Some k -> In k (keys fs)) ->
  typed (fieldsReducer fs a) = true
  /\ keys (fieldsReducer fs a) = keys fs.
Proof.
  intros Ht Hk.
  destruct a as [k v|k|tag Htag]; simpl; [| |auto];
    specialize (Hk k eq_refl);
    (split; [|now apply keys_set_present]);
    unfold set; rewrite (proj2 (mem_keys fs k) Hk);
    apply typed_replace; try assumption;
    apply get_keys in Hk;
    destruct (get fs k) as [f|] eqn:Hg; try congruence;
    pose proof (typed_get _ _ _ Ht Hg) as Hf;
    unfold typed_field in *; simpl;
    destruct (value f); try discriminate;
    destruct (validation f); try discriminate; reflexivity.
Qed.

Lemma settle_fixed actions (es : Errors) :
  (forall k e, In (UPDATE_ERROR k e) actions -> get es k = Some e) ->
  settle actions es = es.
Proof.
  unfold settle. induction actions as [|a r IH]; simpl; intro H;
    [reflexivity|].
  assert (Ha : errorsReducer es a = es).
  { destruct a as [k e|tag Htag]; simpl; [|reflexivity].
    apply set_same. apply H. now left. }
  rewrite Ha. apply IH. intros k e Hin. apply H. now right.
Qed.

Lemma settle_keys_list actions (es : Errors) :
  (forall k e, In (UPDATE_ERROR k e) actions -> In k (keys es)) ->
  keys (settle actions es) = keys es.
Proof.
  unfold settle. revert es.
  induction actions as [|a r IH]; simpl; intros es H; [reflexivity|].
  assert (Ha : keys (errorsReducer es a) = keys es).
  { destruct a as [k e|tag Htag]; simpl; [|reflexivity].
    apply keys_set_present. apply (H k e). now left. }
  rewrite IH; [assumption|].
  intros k e Hin. rewrite Ha. apply (H k e). now right.
Qed.

Section WithValidator.
Context {V : Validator}.
Variable src : SourceFile.
Implicit Types (fs : Fields) (es : Errors) (k : string).

Lemma validate_field_Ok_iff fs k :
  (exists a, validate_field src fs k = Ok a) <->
  exists f, get fs k = Some f /\ validatable f = true.
Proof.
  unfold validate_field.
  destruct (get fs k) as [f|]; simpl;
    [|split; [intros [a Ha] | intros (f & Hf & _)]; congruence].
  assert (Hiff : (exists f0, Some f = Some f0 /\ validatable f0 = true)
                 <-> validatable f = true).
  { split; [intros (f0 & [= <-] & H); exact H | eauto]. }
  rewrite Hiff. unfold validatable.
  destruct (validation f) as [vl|]; simpl;
    [|split; [intros [a Ha] | intro Hf]; congruence].
  destruct (truthy_flag (optional vl)); simpl; [split; eauto|].
  destruct (type vl); simpl;
    try (destruct (value f) as [v|]; simpl;
         [|split; [intros [a Ha] | intro Hf]; congruence]);
    (split; [reflexivity|intros _]);
    repeat match goal with
           | |- context [if ?b then _ else _] => destruct b
           end;
    eexists; reflexivity.
Qed.

Lemma validate_throws fs k :
  In k (keys fs) -> attr validation fs k = None ->
  validate src fs = TypeError.
Proof.
  intros Hk Hv. apply (forEach_throws _ _ k Hk).
  unfold validate_field. unfold attr in Hv.
  destruct (get fs k) as [f|]; simpl; [|reflexivity].
  now rewrite Hv.
Qed.

End WithValidator.
End PassMore.

Section PassLaws.
Import Obj ObjFacts ObjMore JsFacts PassFacts HookFacts PassMore.
Context {V : Validator}.
Variable src : SourceFile.

(** X5.  A pass that completes dispatches exactly one action per key
    of the field store, in the order of [Object.keys]. *)
Theorem validate_one_dispatch_per_field (fs : Fields) actions :
  validate src fs = Ok actions ->
  map ErrorAction_field actions = map Some (keys fs)
  /\ length actions = length (keys fs).
Proof.
  intro H.
  assert (Hmap : map ErrorAction_field actions = map Some (keys fs)).
  { apply (forEach_map (validate_field src fs) ErrorAction_field Some
             (keys fs)); [|assumption].
    intros k a Ha. now destruct (validate_field_target _ _ _ _ Ha) as [e ->]. }
  split; [assumption|].
  apply (f_equal (@length _)) in Hmap. now rewrite !length_map in Hmap.
Qed.

(** X6.  The pass completes exactly when every field has a
    [validation] attribute and, unless it is optional or of type
    [none] or [passwordConfirmation], a [value] attribute; otherwise it
    throws. *)
Theorem validate_completes_iff (fs : Fields) :
  (exists actions, validate src fs = Ok actions) <->
  (forall k, In k (keys fs) ->
             exists f, get fs k = Some f /\ validatable f = true).
Proof.
  split.
  - intros [actions H] k Hk.
    apply validate_dispatches in H as [_ H2].
    destruct (H2 k Hk) as (e & _ & He).
    apply (validate_field_Ok_iff src). eauto.
  - intro H. apply forEach_total. intros k Hk.
    apply validate_field_Ok_iff. auto.
Qed.

(** X7.  A form action on a key the field store lacks leaves a field
    without a [validation] attribute: the next pass throws, and so
    does every pass after any further form actions. *)
Theorem unknown_key_breaks_validation (fs : Fields) a k more es :
  ~ In k (keys fs) ->
  FormAction_field a = Some k ->
  attr validation (fieldsReducer fs a) k = None
  /\ validation_pass src
       (fold_left fieldsReducer more (fieldsReducer fs a)) es
     = TypeError.
Proof.
  intros Hk Ha.
  assert (Hnone : attr validation (fieldsReducer fs a) k = None).
  { rewrite fieldsReducer_validation. unfold attr.
    destruct (get fs k) eqn:Hg; [|reflexivity].
    exfalso. apply Hk, get_keys. congruence. }
  split; [assumption|].
  assert (Hin : In k (keys (fieldsReducer fs a)))
    by (apply fieldsReducer_keys; auto).
  assert (Hlater : forall s : Fields,
             In k (keys s) -> attr validation s k = None ->
             In k (keys (fold_left fieldsReducer more s))
             /\ attr validation (fold_left fieldsReducer more s) k = None).
  { induction more as [|b r IH]; simpl; intros s Hs Hv; [auto|].
    apply IH.
    - apply fieldsReducer_keys. auto.
    - now rewrite fieldsReducer_validation. }
  destruct (Hlater _ Hin Hnone) as [Hin' Hnone'].
  unfold validation_pass. now rewrite (validate_throws src _ k Hin' Hnone').
Qed.

(** X8.  From an initial state of the declared type, and as long as
    every form action targets one of its keys, the hook never throws:
    every sequence of events ends in a state, whose field store is of
    the declared type and enumerates the initial keys. *)
Theorem known_targets_never_throw initialState evs :
  typed initialState = true ->
  forallb (targets_known initialState) evs = true ->
  exists st,
    run src (useForm initialState) evs = Ok st
    /\ typed (formState st) = true
    /\ keys (formState st) = keys initialState.
Proof.
  intros Ht Hev.
  enough (H : forall st,
             typed (formState st) = true ->
             keys (formState st) = keys initialState ->
             exists st', run src st evs = Ok st'
                         /\ typed (formState st') = true
                         /\ keys (formState st') = keys initialState)
    by (apply H; [assumption | reflexivity]).
  induction evs as [|ev r IH]; simpl; intros st Hst Hk; [eauto|].
  simpl in Hev. apply andb_true_iff in Hev as [Hev1 Hev2].
  assert (Hstep : exists st1, step src st ev = Ok st1
                              /\ typed (formState st1) = true
                              /\ keys (formState st1) = keys initialState).
  { destruct ev as [b|b|a|e|]; simpl; try (eexists; split; [reflexivity|auto]).
    - simpl.
      destruct (fieldsReducer_typed (formState st) a Hst) as [H1 H2].
      + intros k Ha. rewrite Hk. apply mem_keys.
        destruct a; simpl in *; congruence.
      + split; congruence.
    - destruct (validate_total src (formState st) Hst) as [actions Ha].
      unfold validation_pass. rewrite Ha. simpl.
      eexists; split; [reflexivity|auto]. }
  destruct Hstep as (st1 & -> & Hst1 & Hk1). simpl. now apply IH.
Qed.

(** X9.  A second pass over the same field store changes nothing, and
    what a pass leaves in the entries of the field store's keys does
    not depend on the error store it started from. *)
Theorem validation_pass_idempotent (fs : Fields) (es es' : Errors) :
  validation_pass src fs es = Ok es' ->
  validation_pass src fs es' = Ok es'
  /\ (forall es2, exists es2',
         validation_pass src fs es2 = Ok es2'
         /\ forall k, In k (keys fs) -> get es2' k = get es' k).
Proof.
  unfold validation_pass.
  destruct (validate src fs) as [actions|] eqn:Hval; simpl; [|discriminate].
  intros [= <-].
  apply validate_dispatches in Hval as [H1 H2].
  assert (Hsame : forall k e e', In (UPDATE_ERROR k e) actions ->
                                 In (UPDATE_ERROR k e') actions -> e' = e).
  { intros k e e' He He'.
    destruct (H1 _ He) as (k1 & e1 & [= <- <-] & _ & Hv1).
    destruct (H1 _ He') as (k2 & e2 & [= <- <-] & _ & Hv2).
    congruence. }
  assert (Hget : forall es0 k e, In (UPDATE_ERROR k e) actions ->
                                 get (settle actions es0) k = Some e).
  { intros es0 k e He. apply settle_get; [|eauto].
    intros e' He'. eapply Hsame; eauto. }
  split.
  - f_equal. apply settle_fixed. intros k e He. now apply Hget.
  - intro es2. eexists. split; [reflexivity|].
    intros k Hk. destruct (H2 k Hk) as (e & He & _).
    now rewrite !(Hget _ k e He).
Qed.

(** X10.  For a form none of whose keys is "__proto__", the error store
    keeps the keys it was created with, in the same order, in every
    reachable state. *)
Theorem error_keys_fixed initialState evs st :
  ~ In "__proto__" (keys initialState) ->
  run src (useForm initialState) evs = Ok st ->
  keys (errorState st) = keys (errorState (useForm initialState)).
Proof.
  intros Hproto Hrun.
  enough (H : stores_agree initialState st
              /\ keys (errorState st)
                 = keys (errorState (useForm initialState))) by apply H.
  apply (run_invariant src
           (fun st => stores_agree initialState st
                      /\ keys (errorState st)
                         = keys (errorState (useForm initialState)))
           (fun _ => true)) with (evs := evs) (st := useForm initialState);
    [|split; [apply stores_agree_init | reflexivity]
     |now apply forallb_forall|assumption].
  intros s ev s' [Hagree Hkeys] _ Hs.
  split; [eapply stores_agree_step; eauto|].
  destruct (step_cases _ _ _ _ Hs)
    as [[Hf He]|[(a & -> & Hf & He)|(-> & Hf & Hp)]];
    try (rewrite He; assumption).
  unfold validation_pass in Hp.
  destruct (validate src (formState s)) as [actions|] eqn:Hval;
    simpl in Hp; [|discriminate].
  injection Hp as <-. rewrite <- Hkeys. apply settle_keys_list.
  intros k e He.
  apply validate_dispatches in Hval as [H1 _].
  destruct (H1 _ He) as (k0 & e0 & [= <- <-] & _ & Hv).
  destruct (validate_field_present _ _ _ _ Hv) as (f & vl & Hf' & Hvl).
  destruct Hagree as (_ & H2 & H3).
  assert (Hin : In k (keys initialState)).
  { apply get_keys. specialize (H3 k). unfold attr in H3.
    rewrite Hf', Hvl in H3.
    destruct (get initialState k); congruence. }
  apply H2; [|assumption]. intros ->. contradiction.
Qed.

(** X11.  The [validation] attribute of every field is, in every
    reachable state, the one the form was created with: no event
    changes a validation rule. *)
Theorem validation_rules_fixed initialState evs st k :
  run src (useForm initialState) evs = Ok st ->
  attr validation (formState st) k = attr validation initialState k.
Proof.
  intro Hrun.
  destruct (stores_agree_run src initialState evs st Hrun) as (_ & _ & H).
  apply H.
Qed.

End PassLaws.

(** X12.  At the first render, before any validation pass has run,
    [formInvalid] is false whatever the fields hold. *)
Theorem formInvalid_false_at_first_render (initialState : Fields) :
  formInvalid (formState (useForm initialState))
              (errorState (useForm initialState))
  = Ok false.
Proof.
  unfold formInvalid.
  destruct (HookFacts.find_spec
              (fun key =>
                 if truthy_opt
                      (Obj.get (errorState (useForm initialState)) key)
                 then
                   field <- prop (Obj.get
                                    (formState (useForm initialState)) key) ;;
                   validation <- prop (validation field) ;;
                   Ok (negb (truthy_flag (optional validation)))
                 else Ok false)
              (fun _ => false)
              (Obj.keys (errorState (useForm initialState))))
    as (r & Hr & Hspec).
  - intros k _. rewrite HookFacts.useForm_errorState.
    now destruct (Obj.mem initialState k && negb (k =? "__proto__")).
  - rewrite Hr. destruct r as [x|]; [|reflexivity].
    destruct Hspec as [_ Hx]. discriminate.
Qed.

Lemma validate_one_dispatch_per_field_witness :
  map ErrorAction_field
    [UPDATE_ERROR "" "Please provide an email"]
  = map Some (Obj.keys anonymous_field)
  /\ length [UPDATE_ERROR "" "Please provide an email"]
     = length (Obj.keys anonymous_field).
Proof.
  apply (validate_one_dispatch_per_field (V := plain_validator) index_ts
           anonymous_field [UPDATE_ERROR "" "Please provide an email"]).
  reflexivity.
Defined.

Lemma unknown_key_breaks_validation_witness :
  attr validation
    (fieldsReducer sign_up (UPDATE_VALUE "middleName" "Q")) "middleName"
  = None
  /\ validation_pass (V := plain_validator) index_ts
       (fold_left fieldsReducer [BLUR_INPUT "middleName"]
          (fieldsReducer sign_up (UPDATE_VALUE "middleName" "Q")))
       Obj.empty
     = TypeError.
Proof.
  apply (unknown_key_breaks_validation (V := plain_validator) index_ts
           sign_up (UPDATE_VALUE "middleName" "Q") "middleName"
           [BLUR_INPUT "middleName"] Obj.empty).
  - vm_compute. intuition discriminate.
  - reflexivity.
Defined.

Lemma known_targets_never_throw_witness :
  exists st,
    run (V := plain_validator) index_ts (useForm sign_up)
      [dispatchFormAction (UPDATE_VALUE "email" " x@y.org ");
       effect;
       dispatchFormAction (BLUR_INPUT "password");
       setLoading true;
       effect]
    = Ok st
    /\ typed (formState st) = true
    /\ Obj.keys (formState st) = Obj.keys sign_up.
Proof.
  apply (known_targets_never_throw (V := plain_validator) index_ts sign_up
           [dispatchFormAction (UPDATE_VALUE "email" " x@y.org ");
            effect;
            dispatchFormAction (BLUR_INPUT "password");
            setLoading true;
            effect]);
    reflexivity.
Defined.

Lemma validation_pass_idempotent_witness :
  validation_pass (V := plain_validator) index_ts anonymous_field
    [("", "Please provide an email")]
  = Ok [("", "Please provide an email")]
  /\ (forall es2, exists es2',
         validation_pass (V := plain_validator) index_ts anonymous_field es2
         = Ok es2'
         /\ forall k, In k (Obj.keys anonymous_field) ->
                      Obj.get es2' k
                      = Obj.get [("", "Please provide an email")] k).
Proof.
  apply (validation_pass_idempotent (V := plain_validator) index_ts
           anonymous_field [("", "")] [("", "Please provide an email")]).
  reflexivity.
Defined.

Lemma error_keys_fixed_witness :
  Obj.keys [("", "Please provide an email")]
  = Obj.keys (errorState (useForm anonymous_field)).
Proof.
  apply (error_keys_fixed (V := plain_validator) index_ts anonymous_field
           [effect]
           {| loading := false;
              didAttemptSubmit := false;
              formState := anonymous_field;
              errorState := [("", "Please provide an email")];
              globalFormError := None |}).
  - vm_compute. intuition discriminate.
  - reflexivity.
Defined.

Lemma validation_rules_fixed_witness :
  attr validation
    (fieldsReducer sign_up (UPDATE_VALUE "email" "x@y.org")) "email"
  = attr validation sign_up "email".
Proof.
  apply (validation_rules_fixed (V := plain_validator) index_ts sign_up
           [dispatchFormAction (UPDATE_VALUE "email" "x@y.org")]
           {| loading := false;
              didAttemptSubmit := false;
              formState :=
                fieldsReducer sign_up (UPDATE_VALUE "email" "x@y.org");
              errorState := errorState (useForm sign_up);
              globalFormError := None |}
           "email").
  reflexivity.
Defined.

(** ** The remaining branches of the callback *)

Module NameMore.
Import Regex RegexFacts.

Lemma first_in_last_name_tail c :
  first_name_tail c = true -> last_name_tail c = true.
Proof.
  unfold first_name_tail, last_name_tail.
  rewrite !orb_true_iff. intuition.
Qed.

Lemma single_or_longer (q : ascii -> bool) c r :
  a_z_i c = true -> all_in q r = true ->
  (r <> "" /\ all_in q r = true) \/ r = "".
Proof. destruct r; [auto | left; split; [discriminate | assumption]]. Qed.

Lemma firstName_sources s :
  matches (firstNamePattern part_000) s = true <->
  matches (firstNamePattern index_ts) s = true
  \/ exists c, s = String c "" /\ a_z_i c = true.
Proof.
  rewrite firstNamePattern_part_000, firstNamePattern_index_ts. split.
  - intros (c & r & -> & Hc & Hr).
    destruct r as [|c' r']; [right; eauto|].
    left. exists c, (String c' r'). repeat split; auto. discriminate.
  - intros [(c & r & -> & Hc & _ & Hr)|(c & -> & Hc)];
      [exists c, r | exists c, ""]; auto.
Qed.

Lemma lastName_sources s :
  matches (lastNamePattern part_000) s = true <->
  matches (lastNamePattern index_ts) s = true
  \/ exists c, s = String c "" /\ a_z_i c = true.
Proof.
  rewrite lastNamePattern_part_000, lastNamePattern_index_ts. split.
  - intros (c & r & -> & Hc & Hr).
    destruct r as [|c' r']; [right; eauto|].
    left. exists c, (String c' r'). repeat split; auto. discriminate.
  - intros [(c & r & -> & Hc & _ & Hr)|(c & -> & Hc)];
      [exists c, r | exists c, ""]; auto.
Qed.

Lemma bool_eq_of_iff (a b : bool) : (a = true <-> b = true) -> a = b.
Proof. destruct a, b; intuition congruence. Qed.

Lemma firstName_sources_agree v :
  (forall c, v = String c "" -> a_z_i c = false) ->
  matches (firstNamePattern part_000) v
  = matches (firstNamePattern index_ts) v.
Proof.
  intro H. apply bool_eq_of_iff. rewrite firstName_sources.
  split; [|auto]. intros [Hm|(c & -> & Hc)]; [assumption|].
  rewrite (H c eq_refl) in Hc. discriminate.
Qed.

Lemma lastName_sources_agree v :
  (forall c, v = String c "" -> a_z_i c = false) ->
  matches (lastNamePattern part_000) v
  = matches (lastNamePattern index_ts) v.
Proof.
  intro H. apply bool_eq_of_iff. rewrite lastName_sources.
  split; [|auto]. intros [Hm|(c & -> & Hc)]; [assumption|].
  rewrite (H c eq_refl) in Hc. discriminate.
Qed.

End NameMore.

Section Branches.
Import Obj ObjFacts JsFacts PassFacts BranchFacts RegexFacts NameMore.
Context {V : Validator}.

(** X13.  In src/index.ts a required [firstName] field gets
    [customError || "Please provide a first name."] when its value is
    empty; the empty error exactly when the value is a letter followed
    by one or more letters, spaces, periods, apostrophes or hyphens;
    and [customError ||] the pattern message in every other case. *)
Theorem firstName_error fs es k f vl v :
  typed fs = true ->
  get fs k = Some f ->
  validation f = Some vl ->
  optional vl <> Some true ->
  type vl = firstName ->
  value f = Some v ->
  exists es',
    validation_pass index_ts fs es = Ok es'
    /\ (v = "" ->
        get es' k
        = Some (or_else (customError vl) "Please provide a first name."))
    /\ (get es' k = Some "" <->
        exists c r, v = String c r /\ Regex.a_z_i c = true /\ r <> ""
                    /\ Regex.all_in Regex.first_name_tail r = true)
    /\ (v <> "" -> get es' k <> Some "" ->
        get es' k = Some (or_else (customError vl) firstNamePatternError)).
Proof.
  intros Ht Hg Hvl Ho Hty Hv.
  pose proof (validate_field_firstName index_ts fs k f vl Hg Hvl Ho v Hty Hv)
    as Hfield.
  destruct (pass_settles index_ts fs es k f _ Ht Hg Hfield)
    as (es' & Hp & He).
  exists es'. split; [assumption|]. rewrite He.
  rewrite <- firstNamePattern_index_ts.
  assert (Hm1 : or_else (customError vl) "Please provide a first name."
                <> "") by now apply or_else_nonempty.
  assert (Hm2 : or_else (customError vl) firstNamePatternError <> "")
    by now apply or_else_nonempty.
  destruct v as [|c r]; simpl String.length; simpl Nat.eqb.
  - repeat split; try congruence. discriminate.
  - destruct (Regex.matches (firstNamePattern index_ts) (String c r));
      repeat split; congruence.
Qed.

(** X14.  In src/index.ts a required [lastName] field gets
    [customError || "Please provide a last name."] when its value is
    empty; the empty error exactly when the value is a letter followed
    by one or more letters, spaces, commas, periods, apostrophes or
    hyphens; and [customError ||] the pattern message in every other
    case. *)
Theorem lastName_error fs es k f vl v :
  typed fs = true ->
  get fs k = Some f ->
  validation f = Some vl ->
  optional vl <> Some true ->
  type vl = lastName ->
  value f = Some v ->
  exists es',
    validation_pass index_ts fs es = Ok es'
    /\ (v = "" ->
        get es' k
        = Some (or_else (customError vl) "Please provide a last name."))
    /\ (get es' k = Some "" <->
        exists c r, v = String c r /\ Regex.a_z_i c = true /\ r <> ""
                    /\ Regex.all_in Regex.last_name_tail r = true)
    /\ (v <> "" -> get es' k <> Some "" ->
        get es' k = Some (or_else (customError vl) lastNamePatternError)).
Proof.
  intros Ht Hg Hvl Ho Hty Hv.
  pose proof (validate_field_lastName index_ts fs k f vl Hg Hvl Ho v Hty Hv)
    as Hfield.
  destruct (pass_settles index_ts fs es k f _ Ht Hg Hfield)
    as (es' & Hp & He).
  exists es'. split; [assumption|]. rewrite He.
  rewrite <- lastNamePattern_index_ts.
  assert (Hm1 : or_else (customError vl) "Please provide a last name."
                <> "") by now apply or_else_nonempty.
  assert (Hm2 : or_else (customError vl) lastNamePatternError <> "")
    by now apply or_else_nonempty.
  destruct v as [|c r]; simpl String.length; simpl Nat.eqb.
  - repeat split; try congruence. discriminate.
  - destruct (Regex.matches (lastNamePattern index_ts) (String c r));
      repeat split; congruence.
Qed.

(** X15.  A field of validation type [none] has the empty error after
    a pass, whatever it holds and whether or not it is optional. *)
Theorem none_always_valid src fs es k f vl :
  typed fs = true ->
  get fs k = Some f ->
  validation f = Some vl ->
  type vl = none ->
  exists es', validation_pass src fs es = Ok es' /\ get es' k = Some "".
Proof.
  intros Ht Hg Hvl Hty.
  apply (pass_settles src fs es k f "" Ht Hg).
  destruct (optional vl) as [[|]|] eqn:Ho.
  - now apply (validate_field_optional src fs k f vl).
  - apply (validate_field_none src fs k f vl); congruence.
  - apply (validate_field_none src fs k f vl); congruence.
Qed.

(** X16.  In both files every value the first-name pattern accepts is
    accepted by the last-name pattern. *)
Theorem firstName_values_valid_as_lastName src s :
  Regex.matches (firstNamePattern src) s = true ->
  Regex.matches (lastNamePattern src) s = true.
Proof.
  destruct src.
  - rewrite firstNamePattern_index_ts, lastNamePattern_index_ts.
    intros (c & r & -> & Hc & Hne & Hr). exists c, r.
    repeat split; auto.
    now apply (all_in_weaken _ _ r first_in_last_name_tail).
  - rewrite firstNamePattern_part_000, lastNamePattern_part_000.
    intros (c & r & -> & Hc & Hr). exists c, r.
    repeat split; auto.
    now apply (all_in_weaken _ _ r first_in_last_name_tail).
Qed.

(** X17.  The two files validate alike except on single letters: each
    name pattern of src/unnamed/part_000 accepts what the pattern of
    src/index.ts accepts and the one-letter values, and on a field that
    does not hold a single letter the callback of the two files
    dispatches the same action. *)
Theorem sources_differ_on_single_letters_only :
  (forall s,
      Regex.matches (firstNamePattern part_000) s = true <->
      Regex.matches (firstNamePattern index_ts) s = true
      \/ exists c, s = String c "" /\ Regex.a_z_i c = true)
  /\ (forall s,
         Regex.matches (lastNamePattern part_000) s = true <->
         Regex.matches (lastNamePattern index_ts) s = true
         \/ exists c, s = String c "" /\ Regex.a_z_i c = true)
  /\ (forall fs k,
         (forall f c, get fs k = Some f -> value f = Some (String c "") ->
                      Regex.a_z_i c = false) ->
         validate_field part_000 fs k = validate_field index_ts fs k).
Proof.
  split; [exact firstName_sources|]. split; [exact lastName_sources|].
  intros fs k H. unfold validate_field.
  destruct (get fs k) as [f|] eqn:Hg; cbn [bind prop]; [|reflexivity].
  specialize (H f).
  destruct (validation f) as [vl|]; cbn [bind prop]; [|reflexivity].
  destruct (truthy_flag (optional vl)); [reflexivity|].
  destruct (type vl); try reflexivity;
    (destruct (value f) as [v|]; cbn [bind prop]; [|reflexivity]);
    [rewrite (firstName_sources_agree v) | rewrite (lastName_sources_agree v)];
    try reflexivity;
    intros c ->; now apply (H c).
Qed.

(** X18.  The pass sees the trimmed value: after [UPDATE_VALUE] with a
    value made of white space only, a required [email] field gets
    "Please provide an email". *)
Theorem blank_email_is_missing src fs es k f vl v :
  typed fs = true ->
  get fs k = Some f ->
  validation f = Some vl ->
  optional vl <> Some true ->
  type vl = email ->
  all_white v = true ->
  exists es',
    validation_pass src (fieldsReducer fs (UPDATE_VALUE k v)) es = Ok es'
    /\ get es' k = Some "Please provide an email".
Proof.
  intros Ht Hg Hvl Ho Hty Hw.
  assert (Hk : In k (keys fs)) by (apply get_keys; congruence).
  destruct (PassMore.fieldsReducer_typed fs (UPDATE_VALUE k v) Ht)
    as [Ht' _]; [now intros k' [= <-]|].
  assert (Hg' : get (fieldsReducer fs (UPDATE_VALUE k v)) k
                = Some {| blurred := blurred f;
                          value := Some (trim v);
                          validation := validation f |}).
  { simpl. rewrite get_set_same, Hg. reflexivity. }
  apply (pass_settles src _ es k _ _ Ht' Hg').
  rewrite (validate_field_email src _ k _ vl Hg' Hvl Ho (trim v) Hty eq_refl).
  now rewrite (TrimMore.trim_all_white v Hw).
Qed.

(** X19.  Changing the password re-judges the confirmation: after
    [UPDATE_VALUE] on the field keyed "password", a required
    [passwordConfirmation] field under another key gets the empty error
    when it holds the trimmed new password, and the mismatch error
    otherwise. *)
Theorem password_change_rechecks_confirmation src fs es k f vl c v :
  typed fs = true ->
  In "password" (keys fs) ->
  k <> "password" ->
  get fs k = Some f ->
  validation f = Some vl ->
  optional vl <> Some true ->
  type vl = passwordConfirmation ->
  value f = Some c ->
  exists es',
    validation_pass src (fieldsReducer fs (UPDATE_VALUE "password" v)) es
    = Ok es'
    /\ (c = trim v -> get es' k = Some "")
    /\ (c <> trim v ->
        get es' k
        = Some (or_else (customError vl) "Passwords do not match")).
Proof.
  intros Ht Hp Hne Hg Hvl Ho Hty Hv.
  destruct (PassMore.fieldsReducer_typed fs (UPDATE_VALUE "password" v) Ht)
    as [Ht' _]; [now intros k' [= <-]|].
  assert (Hg' : get (fieldsReducer fs (UPDATE_VALUE "password" v)) k
                = Some f)
    by (simpl; now rewrite get_set_other).
  assert (Hpw : attr value (fieldsReducer fs (UPDATE_VALUE "password" v))
                     "password" = Some (trim v))
    by (unfold attr; simpl; now rewrite get_set_same).
  pose proof (validate_field_passwordConfirmation src _ k f vl Hg' Hvl Ho Hty)
    as Hfield.
  rewrite Hpw, Hv in Hfield.
  destruct (pass_settles src _ es k f _ Ht' Hg' Hfield) as (es' & Hpass & He).
  exists es'. split; [assumption|]. rewrite He. split.
  - intros ->. simpl. now rewrite String.eqb_refl.
  - intro Hc. simpl. destruct (String.eqb_spec c (trim v)); congruence.
Qed.

(** X20.  A [passwordConfirmation] field that is itself keyed
    "password" is compared with its own value and always gets the
    empty error. *)
Theorem password_keyed_confirmation_always_valid src fs es f vl :
  typed fs = true ->
  get fs "password" = Some f ->
  validation f = Some vl ->
  type vl = passwordConfirmation ->
  exists es',
    validation_pass src fs es = Ok es' /\ get es' "password" = Some "".
Proof.
  intros Ht Hg Hvl Hty.
  apply (pass_settles src fs es "password" f "" Ht Hg).
  destruct (optional vl) as [[|]|] eqn:Ho;
    [now apply (validate_field_optional src fs "password" f vl)| |];
    (rewrite (validate_field_passwordConfirmation src fs "password" f vl
                Hg Hvl) by congruence;
     unfold attr; rewrite Hg;
     now rewrite (proj2 (strict_eq_true_iff _ _) eq_refl)).
Qed.

End Branches.

Lemma firstName_error_witness :
  exists es',
    validation_pass (V := plain_validator) index_ts sign_up Obj.empty = Ok es'
    /\ ("J" = "" ->
        Obj.get es' "firstName" = Some "Please provide a first name.")
    /\ (Obj.get es' "firstName" = Some "" <->
        exists c r, "J" = String c r /\ Regex.a_z_i c = true /\ r <> ""
                    /\ Regex.all_in Regex.first_name_tail r = true)
    /\ ("J" <> "" -> Obj.get es' "firstName" <> Some "" ->
        Obj.get es' "firstName" = Some firstNamePatternError).
Proof.
  apply (firstName_error (V := plain_validator)
           sign_up Obj.empty "firstName"
           (field_of "J" firstName None None)
           (validation_of firstName None None) "J");
    first [reflexivity | discriminate].
Defined.

Lemma lastName_error_witness :
  exists es',
    validation_pass (V := plain_validator) index_ts sign_up Obj.empty = Ok es'
    /\ ("D" = "" -> Obj.get es' "lastName" = Some "Surname, please")
    /\ (Obj.get es' "lastName" = Some "" <->
        exists c r, "D" = String c r /\ Regex.a_z_i c = true /\ r <> ""
                    /\ Regex.all_in Regex.last_name_tail r = true)
    /\ ("D" <> "" -> Obj.get es' "lastName" <> Some "" ->
        Obj.get es' "lastName" = Some "Surname, please").
Proof.
  apply (lastName_error (V := plain_validator)
           sign_up Obj.empty "lastName"
           (field_of "D" lastName (Some "Surname, please") None)
           (validation_of lastName (Some "Surname, please") None) "D");
    first [reflexivity | discriminate].
Defined.

Lemma none_always_valid_witness :
  exists es',
    validation_pass (V := plain_validator) index_ts
      [("notes", field_of "anything at all" none None None)] Obj.empty
    = Ok es'
    /\ Obj.get es' "notes" = Some "".
Proof.
  apply (none_always_valid (V := plain_validator) index_ts
           [("notes", field_of "anything at all" none None None)]
           Obj.empty "notes"
           (field_of "anything at all" none None None)
           (validation_of none None None));
    reflexivity.
Defined.

Lemma firstName_values_valid_as_lastName_witness :
  Regex.matches (lastNamePattern index_ts) "Mary-Ann" = true.
Proof.
  apply (firstName_values_valid_as_lastName index_ts "Mary-Ann").
  reflexivity.
Defined.

Lemma blank_email_is_missing_witness :
  exists es',
    validation_pass (V := plain_validator) index_ts
      (fieldsReducer sign_up (UPDATE_VALUE "email" "   ")) Obj.empty
    = Ok es'
    /\ Obj.get es' "email" = Some "Please provide an email".
Proof.
  apply (blank_email_is_missing (V := plain_validator) index_ts
           sign_up Obj.empty "email"
           (field_of "a@b.com" email None None)
           (validation_of email None None) "   ");
    first [reflexivity | discriminate].
Defined.

Lemma password_change_rechecks_confirmation_witness :
  exists es',
    validation_pass (V := plain_validator) index_ts
      (fieldsReducer sign_up (UPDATE_VALUE "password" " secret2 "))
      Obj.empty
    = Ok es'
    /\ ("secret1" = trim " secret2 " -> Obj.get es' "confirm" = Some "")
    /\ ("secret1" <> trim " secret2 " ->
        Obj.get es' "confirm" = Some "Passwords do not match").
Proof.
  apply (password_change_rechecks_confirmation (V := plain_validator)
           index_ts sign_up Obj.empty "confirm"
           (field_of "secret1" passwordConfirmation None None)
           (validation_of passwordConfirmation None None)
           "secret1" " secret2 ");
    first [reflexivity | discriminate | (simpl; tauto)].
Defined.

Lemma password_keyed_confirmation_always_valid_witness :
  exists es',
    validation_pass (V := plain_validator) index_ts
      [("password", field_of "x" passwordConfirmation None None)]
      Obj.empty
    = Ok es'
    /\ Obj.get es' "password" = Some "".
Proof.
  apply (password_keyed_confirmation_always_valid (V := plain_validator)
           index_ts
           [("password", field_of "x" passwordConfirmation None None)]
           Obj.empty
           (field_of "x" passwordConfirmation None None)
           (validation_of passwordConfirmation None None));
    reflexivity.
Defined.

(** ** The derived flag on reachable states *)

(** X21.  On a form of the declared type none of whose keys is the
    empty string, [formInvalid] never throws in a reachable state and
    is true exactly when some field whose [optional] flag is not true
    has a non-empty error entry. *)
Theorem formInvalid_true_iff {V : Validator} src initialState evs st :
  typed initialState = true ->
  ~ In "" (Obj.keys initialState) ->
  run src (useForm initialState) evs = Ok st ->
  exists b,
    formInvalid (formState st) (errorState st) = Ok b
    /\ (b = true <->
        exists k e,
          Obj.get (errorState st) k = Some e /\ e <> ""
          /\ optional_flag (formState st) k <> Some true).
Proof.
  intros Ht Hempty Hrun.
  exact (formInvalid_reachable src initialState evs st Ht Hempty Hrun).
Qed.

Lemma formInvalid_true_iff_witness :
  exists b,
    formInvalid sign_up
      [("email", ""); ("password", ""); ("confirm", "");
       ("firstName", firstNamePatternError);
       ("lastName", "Surname, please"); ("nickname", "")]
    = Ok b
    /\ (b = true <->
        exists k e,
          Obj.get
            [("email", ""); ("password", ""); ("confirm", "");
             ("firstName", firstNamePatternError);
             ("lastName", "Surname, please"); ("nickname", "")] k
          = Some e
          /\ e <> "" /\ optional_flag sign_up k <> Some true).
Proof.
  apply (formInvalid_true_iff (V := plain_validator) index_ts sign_up
           [effect]
           {| loading := false;
              didAttemptSubmit := false;
              formState := sign_up;
              errorState :=
                [("email", ""); ("password", ""); ("confirm", "");
                 ("firstName", firstNamePatternError);
                 ("lastName", "Surname, please"); ("nickname", "")];
              globalFormError := None |}).
  - reflexivity.
  - vm_compute. intuition discriminate.
  - reflexivity.
Defined.
